(** * plot-latency.py: a shallow embedding and its properties

    The script reads a table of latency samples, slices it by process id,
    and draws either a scatter of the samples or their empirical CDF, one
    subplot per requested pid.

    The embedding follows the script statement by statement.  The values the
    script computes itself (the partition, the frequency table, the pdf and
    cdf columns, the subplot each pid goes to, titles and limits) are
    computed by the definitions below; what pandas and matplotlib own
    (parsing the file, choosing tick positions, rendering) is either taken
    as a parameter or recorded as the request the script makes. *)

From Stdlib Require Import ZArith QArith Qabs List Ascii String.
From Stdlib Require Import PrimFloat Uint63 FloatOps SpecFloat FloatAxioms.
From Stdlib Require Import Sorted Lia Lqa.
From stdpp Require Import base option list gmap strings pretty.
Import ListNotations.

Open Scope string_scope.
Open Scope list_scope.
Open Scope Z_scope.

(** ** Numbers

    [stats_df['frequency'] / sum(...)] is a true division of integers and
    [cumsum] adds its results: pandas carries both out in float64.  The
    script is written over an interface with the operations it needs; the
    instance that runs is IEEE binary64, on the kernel's primitive floats. *)

(** What a number looks like to a formatter: sign and magnitude of a finite
    value, or one of the special values. *)
Inductive Repr :=
| Finite (neg : bool) (mag : Q)
| Infinite (neg : bool)
| NotANumber.

Class Number (F : Type) := {
  of_int : Z -> F;           (* int -> float conversion *)
  truediv : F -> F -> F;    (* [/] *)
  plus : F -> F -> F;       (* [+] *)
  times : F -> F -> F;      (* [*] *)
  repr : F -> Repr;
}.

Module Float64.
(** int64 to float64; counts and tick values are far below 2^63. *)
Definition from_int (z : Z) : float :=
  if z <? 0 then PrimFloat.opp (PrimFloat.of_uint63 (Uint63.of_Z (- z)))
  else PrimFloat.of_uint63 (Uint63.of_Z z).

Definition pow2 (e : Z) : Q :=
  match e with
  | Z0 => 1%Q
  | Zpos p => inject_Z (Z.pow_pos 2 p)
  | Zneg p => Qmake 1 (Pos.pow 2 p)
  end.

Definition to_repr (x : float) : Repr :=
  match Prim2SF x with
  | S754_zero s => Finite s 0%Q
  | S754_finite s m e => Finite s (Qmult (inject_Z (Zpos m)) (pow2 e))
  | S754_infinity s => Infinite s
  | S754_nan => NotANumber
  end.

#[global] Instance number : Number float := {|
  of_int := from_int;
  truediv := PrimFloat.div;
  plus := PrimFloat.add;
  times := PrimFloat.mul;
  repr := to_repr;
|}.
End Float64.

(** ** ['{:,.2%}'.format(x)]

    Python multiplies the value by 100 in its own arithmetic, rounds the
    result to two decimals (half to even, on the exact value), groups the
    integer digits in threes and appends a percent sign. *)

(** Nearest integer to a non-negative rational, ties to even. *)
Definition round_half_even (q : Q) : Z :=
  let n := Qnum q in
  let d := Zpos (Qden q) in
  let fl := n / d in
  match Z.compare (2 * (n mod d)) d with
  | Lt => fl
  | Gt => fl + 1
  | Eq => if Z.even fl then fl else fl + 1
  end.

(** Thousands separators, on the digits from the last to the first: [room]
    is how many more digits the current group of three takes. *)
Fixpoint group3 (room : nat) (rev_digits : list ascii) : list ascii :=
  match rev_digits with
  | [] => []
  | c :: rest =>
      match room with
      | O => ","%char :: c :: group3 2 rest
      | S room' => c :: group3 room' rest
      end
  end.

(** [1234567] becomes [1,234,567]. *)
Definition thousands (digits : string) : string :=
  string_of_list_ascii
    (rev (group3 3 (rev (list_ascii_of_string digits)))).

Definition two_digits (n : Z) : string :=
  if n <? 10 then "0" +:+ pretty n else pretty n.

Definition fixed2 (neg : bool) (mag : Q) : string :=
  let n := round_half_even (Qmult mag (inject_Z 100)) in
  (if neg then "-" else EmptyString) +:+ thousands (pretty (n / 100))
    +:+ "." +:+ two_digits (n mod 100).

Definition format_percent `{Number F} (x : F) : string :=
  match repr (times x (of_int 100)) with
  | Finite neg mag => fixed2 neg mag +:+ "%"
  | Infinite neg => (if neg then "-inf%" else "inf%")
  | NotANumber => "nan%"
  end.

(** ** The table (pandas)

    [pd.read_csv(file, index_col=0, parse_dates=True)] yields a frame whose
    index is the first column, read as timestamps, and whose other columns
    are looked up by name.  Cells are integers: pids, and delays in whole
    microseconds. *)

Definition Timestamp := Z.

Record DataFrame := {
  df_index : list Timestamp;
  df_columns : gmap string (list Z);
}.

(** A column with its index labels. *)
Definition Series (A : Type) := list (Timestamp * A).

Inductive LoadError :=
| FileNotFound          (* FileNotFoundError *)
| ParserError.          (* pandas.errors.ParserError and its kin *)

Inductive Error :=
| Loader (e : LoadError)     (* raised inside pd.read_csv *)
| KeyError (key : string)    (* a missing column or dict key *)
| NameError (name : string)  (* a global read before it is bound *)
| IndexError                 (* subscript out of range *)
| TypeError                  (* subscripting or drawing on a non-Axes *)
| ValueError.                (* a subplot grid with no rows or columns *)

Definition Result (A : Type) := (Error + A)%type.

(** [df[name]] *)
Definition df_getitem (df : DataFrame) (name : string) : Result (Series Z) :=
  match df_columns df !! name with
  | Some values => inr (zip (df_index df) values)
  | None => inl (KeyError name)
  end.

(** [series == p] *)
Definition series_eq (s : Series Z) (p : Z) : Series bool :=
  map (fun '(t, v) => (t, Z.eqb v p)) s.

(** Keep the positions a boolean mask selects. *)
Fixpoint select {A} (mask : list bool) (xs : list A) : list A :=
  match mask, xs with
  | b :: mask', x :: xs' => if b then x :: select mask' xs' else select mask' xs'
  | _, _ => []
  end.

(** [df.loc[mask]] *)
Definition df_loc (df : DataFrame) (mask : Series bool) : DataFrame :=
  {| df_index := select (map snd mask) (df_index df);
     df_columns := select (map snd mask) <$> df_columns df |}.

(** [df.loc[mask, name]] *)
Definition df_loc_col (df : DataFrame) (mask : Series bool) (name : string)
  : Result (Series Z) :=
  df_getitem (df_loc df mask) name.

(** [groupby(key)[key].agg('count')]: one entry per distinct value, in
    increasing order of the value, with the number of rows that hold it. *)
Fixpoint bump (d : Z) (acc : list (Z * Z)) : list (Z * Z) :=
  match acc with
  | [] => [(d, 1)]
  | (k, c) :: rest =>
      if d <? k then (d, 1) :: acc
      else if d =? k then (k, c + 1) :: rest
      else (k, c) :: bump d rest
  end.

Definition groupby_count (values : list Z) : list (Z * Z) :=
  fold_left (fun acc d => bump d acc) values [].

(** Python's builtin [sum] over integers. *)
Definition sum (l : list Z) : Z := fold_left Z.add l 0.

(** [Series.cumsum()]: each entry is the previous result plus the next value. *)
Fixpoint cumsum_from `{Number F} (acc : F) (l : list F) : list F :=
  match l with
  | [] => []
  | x :: rest => let acc' := plus acc x in acc' :: cumsum_from acc' rest
  end.

Definition cumsum `{Number F} (l : list F) : list F :=
  match l with
  | [] => []
  | x :: rest => x :: cumsum_from x rest
  end.

(** The frame [plot_cdf] builds, after [reset_index()]. *)
Record StatsFrame (F : Type) := {
  sf_delay : list Z;
  sf_frequency : list Z;
  sf_pdf : list F;
  sf_cdf : list F;
}.
Arguments sf_delay {F}.
Arguments sf_frequency {F}.
Arguments sf_pdf {F}.
Arguments sf_cdf {F}.

(** ** Command line

    [argparse] stores an option given with [nargs=1] as a one-element list,
    which is true whatever the element is, and an absent option as [None]:
    [option] keeps exactly that distinction.  [pids] takes one or more
    values ([nargs='+']). *)

Record Args := {
  arg_cdf : bool;
  arg_title : option string;
  arg_subtitle : option string;
  arg_xlim : option Z;
  arg_ylim : option Z;
  arg_output : option string;
  arg_file : string;
  arg_pid0 : Z;
  arg_pids_more : list Z;
}.

Definition arg_pids (a : Args) : list Z := arg_pid0 a :: arg_pids_more a.

(** ** The table, as the specification speaks of it

    Definitions used to state properties: the rows of the table, the
    partition a pid selects, and what the frequency table is expected to
    hold. *)

(** The rows of the table. *)
Record Row := { row_ts : Timestamp; row_pid : Z; row_delay : Z }.

Definition rows (data : DataFrame) : list Row :=
  match df_columns data !! "pid", df_columns data !! "delay" with
  | Some pid, Some delay =>
      map (fun '(t, (p, d)) => {| row_ts := t; row_pid := p; row_delay := d |})
          (zip (df_index data) (zip pid delay))
  | _, _ => []
  end.

(** The delay column of the rows whose pid is [p]. *)
Definition partition (data : DataFrame) (p : Z) : Series Z :=
  map (fun r => (row_ts r, row_delay r))
      (filter (fun r => row_pid r = p) (rows data)).

(** How many rows hold the value [d]. *)
Definition count_of (d : Z) (l : list Z) : Z :=
  Z.of_nat (count_occ Z.eq_dec l d).

(** The count stored for a key ([0] when the key is absent). *)
Fixpoint assoc (d : Z) (acc : list (Z * Z)) : Z :=
  match acc with
  | [] => 0
  | (k, c) :: rest => if d =? k then c else assoc d rest
  end.

Definition keys_sorted (acc : list (Z * Z)) : Prop :=
  StronglySorted Z.lt (map fst acc).

Definition counts_positive (acc : list (Z * Z)) : Prop :=
  Forall (fun kc => 0 < snd kc) acc.

Definition has_columns (data : DataFrame) : Prop :=
  is_Some (df_columns data !! "pid") /\ is_Some (df_columns data !! "delay").

Definition default_title (p : Z) : string := "pid=" +:+ pretty p.

(** Running totals of a list of counts. *)
Fixpoint totals_from (acc : Z) (l : list Z) : list Z :=
  match l with
  | [] => []
  | x :: rest => (acc + x) :: totals_from (acc + x) rest
  end.

(** Left-to-right sum of a non-empty list. *)
Definition running_sum `{Number F} (l : list F) : option F :=
  match l with
  | [] => None
  | x :: rest => Some (fold_left plus rest x)
  end.

Fixpoint last_char (s : string) : option ascii :=
  match s with
  | EmptyString => None
  | String c rest =>
      match last_char rest with
      | Some d => Some d
      | None => Some c
      end
  end.

(** A label that reads as a percentage. *)
Definition is_percentage (s : string) : Prop := last_char s = Some "%"%char.

(** The digit a character stands for. *)
Definition digit_value (c : ascii) : option Z :=
  let code := Z.of_N (N_of_ascii c) in
  if (48 <=? code) && (code <=? 57) then Some (code - 48) else None.

(** The number of hundredths a string writes: digits, which separators may
    group, then a point, two more digits and a percent sign. *)
Fixpoint read_hundredths (acc : Z) (s : list ascii) : option Z :=
  match s with
  | [] => None
  | c :: rest =>
      if Ascii.eqb c "." then
        match rest with
        | [a; b; pc] =>
            match digit_value a, digit_value b with
            | Some da, Some db =>
                if Ascii.eqb pc "%" then Some (100 * acc + 10 * da + db)
                else None
            | _, _ => None
            end
        | _ => None
        end
      else if Ascii.eqb c "," then read_hundredths acc rest
      else
        match digit_value c with
        | Some d => read_hundredths (10 * acc + d) rest
        | None => None
        end
  end.

(** The sign and the hundredths of a percent that a label writes. *)
Definition read_percent (s : string) : option (bool * Z) :=
  match list_ascii_of_string s with
  | [] => None
  | c :: rest =>
      if Ascii.eqb c "-" then
        match read_hundredths 0 rest with
        | Some n => Some (true, n)
        | None => None
        end
      else
        match read_hundredths 0 (c :: rest) with
        | Some n => Some (false, n)
        | None => None
        end
  end.

(** The number a run of digits writes, the separators skipped. *)
Fixpoint digits_value (acc : Z) (ds : list ascii) : Z :=
  match ds with
  | [] => acc
  | c :: rest =>
      match digit_value c with
      | Some d => digits_value (10 * acc + d) rest
      | None => digits_value acc rest
      end
  end.

(** The label [l] writes the number [x] as a percentage with two decimals:
    it ends in a percent sign and reads as [x * 100] rounded to the nearest
    hundredth, or names the infinity or the NaN that [x * 100] is. *)
Definition writes_percent `{Number F} (x : F) (l : string) : Prop :=
  is_percentage l /\
  match repr (times x (of_int 100)) with
  | Finite neg mag =>
      exists n, read_percent l = Some (neg, n) /\
                (Qabs (inject_Z n - mag * inject_Z 100) <= 1 # 2)%Q
  | Infinite neg => l = if neg then "-inf%" else "inf%"
  | NotANumber => l = "nan%"
  end.

(** How many values are at most [d]. *)
Definition count_le (d : Z) (l : list Z) : Z :=
  Z.of_nat (length (List.filter (fun x => x <=? d) l)).

(** The same command line with another [--subtitle]. *)
Definition with_subtitle (t : option string) (a : Args) : Args :=
  {| arg_cdf := arg_cdf a; arg_title := arg_title a; arg_subtitle := t;
     arg_xlim := arg_xlim a; arg_ylim := arg_ylim a;
     arg_output := arg_output a; arg_file := arg_file a;
     arg_pid0 := arg_pid0 a; arg_pids_more := arg_pids_more a |}.

(** ** Binary64, as the specification speaks of it

    Definitions used to state properties of the float64 values the script
    computes. *)

(** The value of a finite binary64 number in units of 2^-1074, the
    smallest positive binary64 number. *)
Definition scaled (m : positive) (e : Z) : Z := Zpos m * 2 ^ (e + 1074).

(** The exponent, in the same units, of the last place a value of that
    size is rounded to. *)
Definition ulp_exp (v : Z) : Z := Z.max (Zdigits2 v - 53) 0.

(** The number a rounded mantissa of at most 54 bits stands for. *)
Definition rounded (m e : Z) : spec_float :=
  match m with
  | Zpos p =>
      if m <? 2 ^ 53 then
        if e <=? 971 then S754_finite false p e else S754_infinity false
      else
        if e + 1 <=? 971 then S754_finite false 4503599627370496 (e + 1)
        else S754_infinity false
  | _ => S754_zero false
  end.

(** The spacing of binary64 numbers just above 1: 2^-52. *)
Definition eps : Q := 1 # 4503599627370496.

(** [x] is a positive finite binary64 number of value [q]. *)
Definition value64 (x : float) (q : Q) : Prop :=
  exists m e, Prim2SF x = S754_finite false m e /\
              (q == inject_Z (scaled m e) / inject_Z (2 ^ 1074))%Q.

(** The fraction [a / n]. *)
Definition fraction (a n : Z) : Q := (inject_Z a / inject_Z n)%Q.

(** ** Sample inputs *)

(** Ten samples of five processes. *)
Definition sample_table : DataFrame :=
  {| df_index := [100; 101; 102; 103; 104; 105; 106; 107; 108; 109];
     df_columns := {[ "pid" := [7; 8; 7; 7; 8; 9; 10; 11; 9; 10];
                      "delay" := [5; 3; 5; 1; 3; 5; 2; 4; 6; 2] ]} |}.

(** A well-formed table that has no [pid] column. *)
Definition table_without_pid : DataFrame :=
  {| df_index := [100; 101];
     df_columns := {[ "delay" := [5; 3] ]} |}.

(** Nine samples of one process, each with its own delay. *)
Definition nine_delays : DataFrame :=
  {| df_index := [1; 2; 3; 4; 5; 6; 7; 8; 9];
     df_columns := {[ "pid" := [1; 1; 1; 1; 1; 1; 1; 1; 1];
                      "delay" := [10; 20; 30; 40; 50; 60; 70; 80; 90] ]} |}.

Definition sample_loader (file : string) : LoadError + DataFrame :=
  if String.eqb file "samples.csv" then inr sample_table
  else if String.eqb file "nopid.csv" then inr table_without_pid
  else if String.eqb file "nine.csv" then inr nine_delays
  else inl FileNotFound.

(** Tick positions 0, 0.5 and 1 whatever the axes hold. *)
Definition sample_ticks {A} `{Number F} (_ : A) : list F :=
  [of_int 0; truediv (of_int 1) (of_int 2); of_int 1].

(** Raster mode, four pids, both limits, default titles. *)
Definition raster_args : Args :=
  {| arg_cdf := false; arg_title := None; arg_subtitle := None;
     arg_xlim := Some 10; arg_ylim := Some 8; arg_output := None;
     arg_file := "samples.csv"; arg_pid0 := 7; arg_pids_more := [8; 9; 7] |}.

(** Distribution mode, two pids, saved to a file. *)
Definition cdf_args : Args :=
  {| arg_cdf := true; arg_title := Some "latency"; arg_subtitle := None;
     arg_xlim := Some 10; arg_ylim := None; arg_output := Some "out.png";
     arg_file := "samples.csv"; arg_pid0 := 7; arg_pids_more := [8] |}.

(** Raster mode, five pids. *)
Definition five_pid_args : Args :=
  {| arg_cdf := false; arg_title := None; arg_subtitle := None;
     arg_xlim := None; arg_ylim := None; arg_output := None;
     arg_file := "samples.csv"; arg_pid0 := 7;
     arg_pids_more := [8; 9; 10; 11] |}.

(** A run on the table that has no [pid] column. *)
Definition nopid_args : Args :=
  {| arg_cdf := false; arg_title := None; arg_subtitle := None;
     arg_xlim := None; arg_ylim := None; arg_output := None;
     arg_file := "nopid.csv"; arg_pid0 := 7; arg_pids_more := [] |}.

(** Distribution mode on the nine-sample table. *)
Definition nine_args : Args :=
  {| arg_cdf := true; arg_title := None; arg_subtitle := None;
     arg_xlim := None; arg_ylim := None; arg_output := None;
     arg_file := "nine.csv"; arg_pid0 := 1; arg_pids_more := [] |}.

(** ** The figure (matplotlib) *)

Section Script.
Context {F : Type} {num : Number F}.

(** What was drawn on an axes. *)
Inductive Artist :=
| SeriesPlot (data : Series Z) (marker linestyle : string)
    (* Series.plot(marker=, linestyle=): values against the index *)
| FramePlot (xy : list (Z * F)).
    (* DataFrame.plot(x='delay', y='cdf'): a line through the points *)

Record Axes := {
  ax_artists : list Artist;
  ax_xlabel : option string;
  ax_ylabel : option string;
  ax_title : option string;
  ax_xlim : option (Z * Z);      (* None: autoscaled to the axes' own data *)
  ax_ylim : option (Z * Z);
  ax_yticklabels : option (list string);  (* None: the default formatter *)
}.

Definition blank_axes : Axes :=
  {| ax_artists := []; ax_xlabel := None; ax_ylabel := None;
     ax_title := None; ax_xlim := None; ax_ylim := None;
     ax_yticklabels := None |}.

(** [fig_axes] lists the subplots row by row, as [Figure.axes] does; the
    subplot in row [r] and column [c] is number [r * fig_ncols + c]. *)
Record Figure := {
  fig_nrows : nat;
  fig_ncols : nat;
  fig_sharex : bool;
  fig_sharey : bool;
  fig_hspace : option Q;
  fig_suptitle : option string;
  fig_axes : list Axes;
}.

Definition no_figure : Figure :=
  {| fig_nrows := 0; fig_ncols := 0; fig_sharex := false;
     fig_sharey := false; fig_hspace := None; fig_suptitle := None;
     fig_axes := [] |}.

Definition axes_at (fig : Figure) (r c : nat) : option Axes :=
  fig_axes fig !! (r * fig_ncols fig + c)%nat.

(** What [plt.subplots] hands back next to the figure: one Axes, a
    vector of them, or a matrix, each entry referring to a subplot of the
    figure by its number. *)
Inductive AxHandle :=
| AxOne (i : nat)
| AxVec (l : list nat)
| AxMat (m : list (list nat)).

(** [ax[i]] *)
Definition ax_getitem (h : AxHandle) (i : nat) : Result AxHandle :=
  match h with
  | AxOne _ => inl TypeError
  | AxVec l => match l !! i with Some a => inr (AxOne a) | None => inl IndexError end
  | AxMat m => match m !! i with Some r => inr (AxVec r) | None => inl IndexError end
  end.

Inductive Event :=
| Print (line : string)               (* print(p) *)
| PrintDescribe (s : Series Z)        (* print(series.describe()) *)
| Savefig (path : string) (fig : Figure)
| Show (fig : Figure).

(** ** State of the run

    The globals the script rebinds as it goes ([pid_data], [p], [row],
    [col]), the current figure, and what it has printed, saved and shown
    so far. *)
Record State := {
  st_pid_data : gmap Z (Series Z);
  st_p : option Z;
  st_row : nat;
  st_col : nat;
  st_fig : Figure;
  st_trace : list Event;
}.

Definition initial : State :=
  {| st_pid_data := ∅; st_p := None; st_row := 0; st_col := 0;
     st_fig := no_figure; st_trace := [] |}.

Definition M (A : Type) : Type := State -> Result (A * State).

Definition ret {A} (x : A) : M A := fun st => inr (x, st).
Definition bind {A B} (m : M A) (k : A -> M B) : M B :=
  fun st => match m st with
            | inl e => inl e
            | inr (x, st') => k x st'
            end.
Definition raise {A} (e : Error) : M A := fun _ => inl e.
Definition lift {A} (r : Result A) : M A :=
  fun st => match r with inl e => inl e | inr x => inr (x, st) end.
Definition get : M State := fun st => inr (st, st).
Definition modify (f : State -> State) : M unit := fun st => inr (tt, f st).

#[global] Instance M_ret : MRet M := @ret.
#[global] Instance M_bind : MBind M := fun A B k m => bind m k.

Definition emit (e : Event) : M unit :=
  modify (fun st =>
    {| st_pid_data := st_pid_data st; st_p := st_p st; st_row := st_row st;
       st_col := st_col st; st_fig := st_fig st;
       st_trace := st_trace st ++ [e] |}).

Definition set_fig (fig : Figure) (st : State) : State :=
  {| st_pid_data := st_pid_data st; st_p := st_p st; st_row := st_row st;
     st_col := st_col st; st_fig := fig; st_trace := st_trace st |}.

Definition set_p (p : Z) (st : State) : State :=
  {| st_pid_data := st_pid_data st; st_p := Some p; st_row := st_row st;
     st_col := st_col st; st_fig := st_fig st; st_trace := st_trace st |}.

Definition set_row (row : nat) (st : State) : State :=
  {| st_pid_data := st_pid_data st; st_p := st_p st; st_row := row;
     st_col := st_col st; st_fig := st_fig st; st_trace := st_trace st |}.

Definition set_col (col : nat) (st : State) : State :=
  {| st_pid_data := st_pid_data st; st_p := st_p st; st_row := st_row st;
     st_col := col; st_fig := st_fig st; st_trace := st_trace st |}.

Definition set_pid_data (d : gmap Z (Series Z)) (st : State) : State :=
  {| st_pid_data := d; st_p := st_p st; st_row := st_row st;
     st_col := st_col st; st_fig := st_fig st; st_trace := st_trace st |}.

Definition set_axes (axes : list Axes) (fig : Figure) : Figure :=
  {| fig_nrows := fig_nrows fig; fig_ncols := fig_ncols fig;
     fig_sharex := fig_sharex fig; fig_sharey := fig_sharey fig;
     fig_hspace := fig_hspace fig; fig_suptitle := fig_suptitle fig;
     fig_axes := axes |}.

(** Python's [for x in xs: body]. *)
Fixpoint for_each {A} (xs : list A) (body : A -> M unit) : M unit :=
  match xs with
  | [] => mret tt
  | x :: rest => body x ;; for_each rest body
  end.

(** *** matplotlib calls *)

(** [plt.subplots(nrows, ncols)], with its defaults: nothing shared, and
    the returned array squeezed. *)
Definition subplots (nrows ncols : nat) : M AxHandle :=
  if ((nrows =? 0) || (ncols =? 0))%nat then raise ValueError
  else
    modify (set_fig
      {| fig_nrows := nrows; fig_ncols := ncols;
         fig_sharex := false; fig_sharey := false;
         fig_hspace := None; fig_suptitle := None;
         fig_axes := replicate (nrows * ncols) blank_axes |}) ;;
    mret (if ((nrows =? 1) && (ncols =? 1))%nat then AxOne 0
          else if (ncols =? 1)%nat then AxVec (seq 0 nrows)
          else if (nrows =? 1)%nat then AxVec (seq 0 ncols)
          else AxMat (map (fun r => map (fun c => (r * ncols + c)%nat)
                                        (seq 0 ncols))
                          (seq 0 nrows))).

(** [fig.subplots_adjust(hspace=h)] *)
Definition subplots_adjust (h : Q) : M unit :=
  modify (fun st =>
    let fig := st_fig st in
    set_fig {| fig_nrows := fig_nrows fig; fig_ncols := fig_ncols fig;
               fig_sharex := fig_sharex fig; fig_sharey := fig_sharey fig;
               fig_hspace := Some h; fig_suptitle := fig_suptitle fig;
               fig_axes := fig_axes fig |} st).

(** [fig.suptitle(t)] *)
Definition suptitle (t : string) : M unit :=
  modify (fun st =>
    let fig := st_fig st in
    set_fig {| fig_nrows := fig_nrows fig; fig_ncols := fig_ncols fig;
               fig_sharex := fig_sharex fig; fig_sharey := fig_sharey fig;
               fig_hspace := fig_hspace fig; fig_suptitle := Some t;
               fig_axes := fig_axes fig |} st).

(** A method call on the Axes a handle stands for.  Anything but a single
    Axes of the current figure has no such method. *)
Definition on_axes (a : AxHandle) (f : Axes -> Axes) : M unit :=
  fun st =>
    match a with
    | AxOne i =>
        match fig_axes (st_fig st) !! i with
        | Some x =>
            inr (tt, set_fig (set_axes (<[i := f x]> (fig_axes (st_fig st)))
                                       (st_fig st)) st)
        | None => inl IndexError
        end
    | _ => inl TypeError
    end.

Definition read_axes (a : AxHandle) : M Axes :=
  fun st =>
    match a with
    | AxOne i =>
        match fig_axes (st_fig st) !! i with
        | Some x => inr (x, st)
        | None => inl IndexError
        end
    | _ => inl TypeError
    end.

Definition draw (art : Artist) (x : Axes) : Axes :=
  {| ax_artists := ax_artists x ++ [art]; ax_xlabel := ax_xlabel x;
     ax_ylabel := ax_ylabel x; ax_title := ax_title x;
     ax_xlim := ax_xlim x; ax_ylim := ax_ylim x;
     ax_yticklabels := ax_yticklabels x |}.

Definition with_xlabel (s : string) (x : Axes) : Axes :=
  {| ax_artists := ax_artists x; ax_xlabel := Some s;
     ax_ylabel := ax_ylabel x; ax_title := ax_title x;
     ax_xlim := ax_xlim x; ax_ylim := ax_ylim x;
     ax_yticklabels := ax_yticklabels x |}.

Definition with_ylabel (s : string) (x : Axes) : Axes :=
  {| ax_artists := ax_artists x; ax_xlabel := ax_xlabel x;
     ax_ylabel := Some s; ax_title := ax_title x;
     ax_xlim := ax_xlim x; ax_ylim := ax_ylim x;
     ax_yticklabels := ax_yticklabels x |}.

Definition with_title (s : string) (x : Axes) : Axes :=
  {| ax_artists := ax_artists x; ax_xlabel := ax_xlabel x;
     ax_ylabel := ax_ylabel x; ax_title := Some s;
     ax_xlim := ax_xlim x; ax_ylim := ax_ylim x;
     ax_yticklabels := ax_yticklabels x |}.

Definition with_xlim (lo hi : Z) (x : Axes) : Axes :=
  {| ax_artists := ax_artists x; ax_xlabel := ax_xlabel x;
     ax_ylabel := ax_ylabel x; ax_title := ax_title x;
     ax_xlim := Some (lo, hi); ax_ylim := ax_ylim x;
     ax_yticklabels := ax_yticklabels x |}.

Definition with_ylim (lo hi : Z) (x : Axes) : Axes :=
  {| ax_artists := ax_artists x; ax_xlabel := ax_xlabel x;
     ax_ylabel := ax_ylabel x; ax_title := ax_title x;
     ax_xlim := ax_xlim x; ax_ylim := Some (lo, hi);
     ax_yticklabels := ax_yticklabels x |}.

Definition with_yticklabels (l : list string) (x : Axes) : Axes :=
  {| ax_artists := ax_artists x; ax_xlabel := ax_xlabel x;
     ax_ylabel := ax_ylabel x; ax_title := ax_title x;
     ax_xlim := ax_xlim x; ax_ylim := ax_ylim x;
     ax_yticklabels := Some l |}.

(** [series.plot(marker=, linestyle=, ax=a, legend=None)] draws on [a]
    and returns it.  Drawing is taken to succeed on any data: what pandas
    and matplotlib make of a degenerate series is theirs to decide. *)
Definition series_plot (s : Series Z) (marker linestyle : string)
    (a : AxHandle) : M AxHandle :=
  on_axes a (draw (SeriesPlot s marker linestyle)) ;; mret a.

(** [frame.plot(x=, y=, legend=None, ax=a)] likewise. *)
Definition frame_plot (xy : list (Z * F)) (a : AxHandle) : M AxHandle :=
  on_axes a (draw (FramePlot xy)) ;; mret a.

Definition set_xlabel (a : AxHandle) (s : string) := on_axes a (with_xlabel s).
Definition set_ylabel (a : AxHandle) (s : string) := on_axes a (with_ylabel s).
Definition set_title (a : AxHandle) (s : string) := on_axes a (with_title s).
Definition set_xlim (a : AxHandle) (lo hi : Z) := on_axes a (with_xlim lo hi).
Definition set_ylim (a : AxHandle) (lo hi : Z) := on_axes a (with_ylim lo hi).
Definition set_yticklabels (a : AxHandle) (l : list string) :=
  on_axes a (with_yticklabels l).

(** [fig.savefig(path)] and [plt.show()] *)
Definition savefig (path : string) : M unit :=
  st ← get; emit (Savefig path (st_fig st)).
Definition show : M unit :=
  st ← get; emit (Show (st_fig st)).

(** *** What the libraries decide

    [read_csv] is the loader: the file system and pandas' parser, which
    either raise or hand back a frame.  [yticks] is matplotlib's tick
    locator: the positions [get_yticks()] reports for an axes as it
    stands. *)
Variable read_csv : string -> LoadError + DataFrame.
Variable yticks : Axes -> list F.

Definition pd_read_csv (file : string) : M DataFrame :=
  lift (match read_csv file with
        | inl e => inl (Loader e)
        | inr df => inr df
        end).

Definition get_yticks (a : AxHandle) : M (list F) :=
  x ← read_axes a; mret (yticks x).

(** [if opt: f(opt[0])] *)
Definition when_given {A} (opt : option A) (f : A -> M unit) : M unit :=
  match opt with
  | Some x => f x
  | None => mret tt
  end.

(** ** The script *)

Variable args : Args.

Definition pids : list Z := arg_pids args.

(** The global [p], as a function body sees it. *)
Definition global_p : M Z :=
  st ← get;
  match st_p st with
  | Some p => mret p
  | None => raise (NameError "p")
  end.

(** [pid_data[p]] *)
Definition pid_data_getitem (p : Z) : M (Series Z) :=
  st ← get;
  match st_pid_data st !! p with
  | Some s => mret s
  | None => raise (KeyError (pretty p))
  end.

(** [pid_data[p] = s] *)
Definition pid_data_setitem (p : Z) (s : Series Z) : M unit :=
  modify (fun st => set_pid_data (<[p := s]> (st_pid_data st)) st).

(** Body of the first loop (lines 51-54). *)
Definition load_pid (data : DataFrame) (p : Z) : M unit :=
  modify (set_p p) ;;
  emit (Print (pretty p)) ;;
  pid_col ← lift (df_getitem data "pid");
  s ← lift (df_loc_col data (series_eq pid_col p) "delay");
  pid_data_setitem p s ;;
  s' ← pid_data_getitem p;
  emit (PrintDescribe s').

(** The frame of lines 81-88, from the delays of the selected rows. *)
Definition cdf_stats (delays : list Z) : StatsFrame F :=
  let freq := groupby_count delays in
  let frequency := map snd freq in
  let total := sum frequency in
  let pdf := map (fun c => truediv (of_int c) (of_int total)) frequency in
  {| sf_delay := map fst freq;
     sf_frequency := frequency;
     sf_pdf := pdf;
     sf_cdf := cumsum pdf |}.

Definition plot_cdf (data : DataFrame) (p : Z) (a : AxHandle) : M unit :=
  pid_col ← lift (df_getitem data "pid");
  delay ← lift (df_getitem (df_loc data (series_eq pid_col p)) "delay");
  let stats_df := cdf_stats (map snd delay) in
  p_ax ← frame_plot (zip (sf_delay stats_df) (sf_cdf stats_df)) a;
  set_xlabel p_ax "latency (µs)" ;;
  vals ← get_yticks p_ax;
  set_yticklabels p_ax (map format_percent vals) ;;
  when_given (arg_xlim args) (set_xlim p_ax 0) ;;
  when_given (arg_ylim args) (set_ylim p_ax 0).

(** [plot_plot] takes only the axes; the pid is the global [p]. *)
Definition plot_plot (a : AxHandle) : M unit :=
  p ← global_p;
  s ← pid_data_getitem p;
  p_ax ← series_plot s "." "None" a;
  set_ylabel p_ax "latency (µs)" ;;
  set_xlabel p_ax "Time" ;;
  match arg_subtitle args with
  | Some t => set_title p_ax t
  | None => p' ← global_p; set_title p_ax ("pid=" +:+ pretty p')
  end ;;
  when_given (arg_xlim args) (set_xlim p_ax 0) ;;
  when_given (arg_ylim args) (set_ylim p_ax 0).

Definition do_plot (data : DataFrame) (p : Z) (a : AxHandle) : M unit :=
  if arg_cdf args then plot_cdf data p a else plot_plot a.

(** Lines 128-139: the axes the next pid is drawn on, and the move of
    [row] and [col] past it. *)
Definition pick_axes (ax : AxHandle) : M AxHandle :=
  if (length pids =? 4)%nat then
    st ← get;
    r ← lift (ax_getitem ax (st_row st));
    a ← lift (ax_getitem r (st_col st));
    modify (set_col ((st_col st + 1) mod 2)%nat) ;;
    st' ← get;
    (if (st_col st' =? 0)%nat
     then modify (set_row (st_row st' + 1)%nat)
     else mret tt) ;;
    mret a
  else if (1 <? length pids)%nat then
    st ← get;
    a ← lift (ax_getitem ax (st_row st));
    modify (set_row (st_row st + 1)%nat) ;;
    mret a
  else
    st ← get;
    modify (set_row (st_row st + 1)%nat) ;;
    mret ax.

(** Body of the second loop (lines 127-141). *)
Definition place_and_plot (data : DataFrame) (ax : AxHandle) (p : Z)
  : M unit :=
  modify (set_p p) ;;
  a ← pick_axes ax;
  do_plot data p a.

Definition main : M unit :=
  data ← pd_read_csv (arg_file args);
  for_each pids (load_pid data) ;;
  ax ← (if (length pids =? 4)%nat then subplots 2 2
        else subplots (length pids) 1);
  subplots_adjust (1 # 2) ;;
  when_given (arg_title args) suptitle ;;
  modify (set_col 0) ;;
  modify (set_row 0) ;;
  for_each pids (place_and_plot data ax) ;;
  when_given (arg_output args) savefig ;;
  show.

(** The run of the script, from a fresh interpreter. *)
Definition run : Result State :=
  match main initial with
  | inl e => inl e
  | inr (_, st) => inr st
  end.

(** ** What a run leaves behind

    The axes, figure and trace the script is shown to produce.  These are
    closed forms; the properties below relate them to [run]. *)

Definition with_limits (x : Axes) : Axes :=
  let x1 := match arg_xlim args with Some n => with_xlim 0 n x | None => x end in
  match arg_ylim args with Some n => with_ylim 0 n x1 | None => x1 end.

Definition cdf_points (delay : Series Z) : list (Z * F) :=
  let stats_df := cdf_stats (map snd delay) in
  zip (sf_delay stats_df) (sf_cdf stats_df).

Definition rendered_cdf (delay : Series Z) (x : Axes) : Axes :=
  let x1 := with_xlabel "latency (µs)" (draw (FramePlot (cdf_points delay)) x) in
  with_limits (with_yticklabels (map format_percent (yticks x1)) x1).

Definition rendered_plot (p : Z) (s : Series Z) (x : Axes) : Axes :=
  with_limits
    (with_title (match arg_subtitle args with Some t => t | None => default_title p end)
       (with_xlabel "Time"
          (with_ylabel "latency (µs)" (draw (SeriesPlot s "." "None") x)))).

Definition rendered (data : DataFrame) (p : Z) (x : Axes) : Axes :=
  if arg_cdf args then rendered_cdf (partition data p) x
  else rendered_plot p (partition data p) x.

Definition upd (i : nat) (y : Axes) (st : State) : State :=
  set_fig (set_axes (<[i := y]> (fig_axes (st_fig st))) (st_fig st)) st.

Definition logged (e : Event) (st : State) : State :=
  {| st_pid_data := st_pid_data st; st_p := st_p st; st_row := st_row st;
     st_col := st_col st; st_fig := st_fig st;
     st_trace := st_trace st ++ [e] |}.

Definition loaded (data : DataFrame) (st : State) (p : Z) : State :=
  {| st_pid_data := <[p := partition data p]> (st_pid_data st);
     st_p := Some p; st_row := st_row st; st_col := st_col st;
     st_fig := st_fig st;
     st_trace := st_trace st ++ [Print (pretty p); PrintDescribe (partition data p)] |}.

Definition load_trace (data : DataFrame) (ps : list Z) : list Event :=
  flat_map (fun p => [Print (pretty p); PrintDescribe (partition data p)]) ps.

Definition n_pids : nat := length (arg_pids args).

(** Where [row] and [col] stand before the [k]-th pid is placed. *)
Definition row_of (k : nat) : nat := if (n_pids =? 4)%nat then (k / 2)%nat else k.
Definition col_of (k : nat) : nat := if (n_pids =? 4)%nat then (k mod 2)%nat else 0%nat.

(** What [plt.subplots] returns for this many pids. *)
Definition handle : AxHandle :=
  if (n_pids =? 4)%nat then AxMat [[0; 1]; [2; 3]]%nat
  else if (n_pids =? 1)%nat then AxOne 0
  else AxVec (seq 0 n_pids).

Definition fresh_figure : Figure :=
  {| fig_nrows := if (n_pids =? 4)%nat then 2 else n_pids;
     fig_ncols := if (n_pids =? 4)%nat then 2 else 1;
     fig_sharex := false; fig_sharey := false;
     fig_hspace := None; fig_suptitle := None;
     fig_axes := replicate n_pids blank_axes |}.

Definition drawn (data : DataFrame) (k : nat) : list Axes :=
  map (fun p => rendered data p blank_axes) (take k (arg_pids args))
  ++ replicate (n_pids - k) blank_axes.

Definition final_figure (data : DataFrame) : Figure :=
  {| fig_nrows := if (n_pids =? 4)%nat then 2 else n_pids;
     fig_ncols := if (n_pids =? 4)%nat then 2 else 1;
     fig_sharex := false; fig_sharey := false;
     fig_hspace := Some (1 # 2);
     fig_suptitle := arg_title args;
     fig_axes := map (fun p => rendered data p blank_axes) (arg_pids args) |}.

Definition final_trace (data : DataFrame) : list Event :=
  load_trace data (arg_pids args)
  ++ match arg_output args with
     | Some path => [Savefig path (final_figure data)]
     | None => []
     end
  ++ [Show (final_figure data)].

(** What the subplot of pid [p] is expected to draw. *)
Definition artist_for (data : DataFrame) (p : Z) : Artist :=
  if arg_cdf args then FramePlot (cdf_points (partition data p))
  else SeriesPlot (partition data p) "." "None".

Definition shows (data : DataFrame) (p : Z) (x : Axes) : Prop :=
  ax_artists x = [artist_for data p].

(** Output on the terminal, as opposed to saving or showing the figure. *)
Definition is_print (e : Event) : Prop :=
  match e with
  | Print _ | PrintDescribe _ => True
  | Savefig _ _ | Show _ => False
  end.

(** * Properties *)

(** ** The partition

    The boolean-mask selection of the script picks exactly the rows whose
    pid is the requested one. *)

Lemma zip_nil_r {A B} (l : list A) : zip l (@nil B) = [].
Proof. by destruct l. Qed.

Lemma select_partition (p : Z) (idx : list Timestamp) (pv dv : list Z) :
  zip (select (map snd (series_eq (zip idx pv) p)) idx)
      (select (map snd (series_eq (zip idx pv) p)) dv)
  = map (fun r => (row_ts r, row_delay r))
      (filter (fun r => row_pid r = p)
         (map (fun '(t, (q, d)) => {| row_ts := t; row_pid := q; row_delay := d |})
              (zip idx (zip pv dv)))).
Proof.
  unfold series_eq. revert pv dv. induction idx as [|t idx IH]; intros pv dv; [by destruct pv|].
  destruct pv as [|q pv]; [done|].
  destruct dv as [|d dv].
  - cbn. by rewrite zip_nil_r.
  - cbn -[filter]. rewrite filter_cons. cbn.
    destruct (Z.eqb_spec q p) as [->|Hne].
    + rewrite decide_True by done. cbn. by rewrite IH.
    + rewrite decide_False by done. by rewrite IH.
Qed.

Lemma df_loc_col_partition data p pid_col :
  df_getitem data "pid" = inr pid_col ->
  is_Some (df_columns data !! "delay") ->
  df_loc_col data (series_eq pid_col p) "delay" = inr (partition data p).
Proof.
  unfold df_getitem, df_loc_col, df_loc, partition, rows.
  destruct (df_columns data !! "pid") as [pv|] eqn:Hp; [|done].
  intros [= <-] [dv Hd]. rewrite Hd. cbn [df_columns df_index].
  unfold df_getitem. cbn [df_columns df_index].
  rewrite lookup_fmap, Hd. cbn [fmap option_fmap option_map].
  by rewrite select_partition.
Qed.

(** ** The frequency table

    [groupby_count] keeps its keys strictly increasing and its counts
    positive, stores for each key the number of its occurrences, and its
    counts add up to the number of values. *)

Lemma bump_keys d acc x :
  In x (map fst (bump d acc)) <-> x = d \/ In x (map fst acc).
Proof.
  induction acc as [|[k c] rest IH]; cbn; [intuition congruence|].
  destruct (Z.ltb_spec d k); [cbn; intuition congruence|].
  destruct (Z.eqb_spec d k) as [->|]; cbn; [intuition congruence|].
  rewrite IH. intuition congruence.
Qed.

Lemma bump_sorted d acc : keys_sorted acc -> keys_sorted (bump d acc).
Proof.
  unfold keys_sorted.
  induction acc as [|[k c] rest IH]; cbn; intros Hs.
  - repeat constructor.
  - apply StronglySorted_inv in Hs as [Hrest Hk].
    destruct (Z.ltb_spec d k).
    + cbn. constructor; [by constructor|].
      constructor; [done|]. eapply Forall_impl; [exact Hk|]. cbn. lia.
    + destruct (Z.eqb_spec d k) as [->|]; cbn; [by constructor|].
      constructor; [by apply IH|].
      apply List.Forall_forall. intros x Hx. apply bump_keys in Hx as [->|Hx]; [lia|].
      rewrite List.Forall_forall in Hk. by apply Hk.
Qed.

Lemma bump_positive d acc : counts_positive acc -> counts_positive (bump d acc).
Proof.
  unfold counts_positive.
  induction acc as [|[k c] rest IH]; cbn; intros Hp.
  - by repeat constructor.
  - inversion Hp as [|? ? Hc Hrest]; subst. cbn in Hc.
    destruct (Z.ltb_spec d k); [by repeat constructor|].
    destruct (Z.eqb_spec d k); constructor; cbn; auto; lia.
Qed.

Lemma assoc_absent d acc : ~ In d (map fst acc) -> assoc d acc = 0.
Proof.
  induction acc as [|[k c] rest IH]; cbn; [done|]. intros Hn.
  destruct (Z.eqb_spec d k) as [->|]; [tauto|]. apply IH. tauto.
Qed.

Lemma assoc_bump d acc x :
  keys_sorted acc ->
  assoc x (bump d acc) = assoc x acc + (if x =? d then 1 else 0).
Proof.
  unfold keys_sorted.
  induction acc as [|[k c] rest IH]; cbn; intros Hs.
  - destruct (x =? d); lia.
  - apply StronglySorted_inv in Hs as [Hrest Hk].
    destruct (Z.ltb_spec d k).
    + cbn. destruct (Z.eqb_spec x d) as [Hxd|]; [subst x|lia].
      destruct (Z.eqb_spec d k); [lia|].
      rewrite assoc_absent; [lia|]. intros Hin.
      rewrite List.Forall_forall in Hk. apply Hk in Hin. lia.
    + destruct (Z.eqb_spec d k) as [->|]; cbn.
      * destruct (Z.eqb_spec x k); lia.
      * rewrite IH by done.
        destruct (Z.eqb_spec x k), (Z.eqb_spec x d); lia.
Qed.

Lemma assoc_In k c acc : keys_sorted acc -> In (k, c) acc -> assoc k acc = c.
Proof.
  unfold keys_sorted.
  induction acc as [|[k0 c0] rest IH]; cbn; [done|]. intros Hs Hin.
  apply StronglySorted_inv in Hs as [Hrest Hk].
  destruct Hin as [[= -> ->]|Hin]; [by rewrite Z.eqb_refl|].
  destruct (Z.eqb_spec k k0) as [->|]; [|by apply IH].
  rewrite List.Forall_forall in Hk.
  assert (k0 < k0); [|lia]. apply Hk. by apply (in_map fst) in Hin.
Qed.

Lemma assoc_positive k acc :
  counts_positive acc -> In k (map fst acc) -> 0 < assoc k acc.
Proof.
  unfold counts_positive.
  induction acc as [|[k0 c0] rest IH]; cbn; [done|]. intros Hp Hin.
  inversion Hp as [|? ? Hc Hrest]; subst. cbn in Hc.
  destruct (Z.eqb_spec k k0); [done|]. apply IH; [done|].
  destruct Hin; [congruence|done].
Qed.

Lemma count_of_cons d x l :
  count_of d (x :: l) = count_of d l + (if d =? x then 1 else 0).
Proof.
  unfold count_of. cbn.
  destruct (Z.eq_dec x d), (Z.eqb_spec d x); try congruence; lia.
Qed.

Lemma groupby_fold values acc :
  keys_sorted acc -> counts_positive acc ->
  let out := fold_left (fun acc d => bump d acc) values acc in
  keys_sorted out /\ counts_positive out /\
  forall d, assoc d out = assoc d acc + count_of d values.
Proof.
  revert acc. induction values as [|x values IH]; cbn; intros acc Hs Hp.
  - repeat split; try done. intros d. unfold count_of. cbn. lia.
  - destruct (IH (bump x acc)) as (Hs' & Hp' & Ha);
      [by apply bump_sorted | by apply bump_positive |].
    repeat split; try done. intros d.
    rewrite Ha, assoc_bump, count_of_cons by done. lia.
Qed.

Lemma groupby_count_sorted values : keys_sorted (groupby_count values).
Proof. apply (groupby_fold values []); by constructor. Qed.

Lemma groupby_count_positive values : counts_positive (groupby_count values).
Proof. apply (groupby_fold values []); by constructor. Qed.

Lemma groupby_count_assoc values d :
  assoc d (groupby_count values) = count_of d values.
Proof.
  destruct (groupby_fold values []) as (_ & _ & Ha); [by constructor..|].
  apply Ha.
Qed.

Lemma groupby_count_In values k c :
  In (k, c) (groupby_count values) -> c = count_of k values.
Proof.
  intros Hin. rewrite <- groupby_count_assoc. symmetry.
  apply assoc_In; [apply groupby_count_sorted | done].
Qed.

Lemma groupby_count_keys values d :
  In d (map fst (groupby_count values)) <-> In d values.
Proof.
  split.
  - intros Hin.
    apply (assoc_positive _ _ (groupby_count_positive values)) in Hin.
    rewrite groupby_count_assoc in Hin. unfold count_of in Hin.
    apply (count_occ_In Z.eq_dec). lia.
  - intros Hin. apply (count_occ_In Z.eq_dec) in Hin.
    destruct (in_dec Z.eq_dec d (map fst (groupby_count values))) as [|Hn]; [done|].
    apply assoc_absent in Hn. rewrite groupby_count_assoc in Hn.
    unfold count_of in Hn. lia.
Qed.

Lemma sum_from l a : fold_left Z.add l a = a + sum l.
Proof.
  unfold sum. revert a. induction l as [|x l IH]; intros a; cbn [fold_left]; [lia|].
  rewrite (IH (a + x)), (IH (0 + x)). lia.
Qed.

Lemma sum_cons x l : sum (x :: l) = x + sum l.
Proof. unfold sum at 1. cbn [fold_left]. by rewrite sum_from. Qed.

Lemma sum_bump d acc : sum (map snd (bump d acc)) = sum (map snd acc) + 1.
Proof.
  induction acc as [|[k c] rest IH]; cbn [bump]; [done|].
  destruct (d <? k); [cbn [map snd]; rewrite !sum_cons; lia|].
  destruct (d =? k); cbn [map snd]; rewrite !sum_cons; [lia|]. rewrite IH. lia.
Qed.

Lemma groupby_count_sum values :
  sum (map snd (groupby_count values)) = Z.of_nat (length values).
Proof.
  unfold groupby_count.
  assert (forall acc, sum (map snd (fold_left (fun acc d => bump d acc) values acc))
                      = sum (map snd acc) + Z.of_nat (length values)) as Hgen.
  { induction values as [|x values IH]; intros acc; cbn [fold_left length]; [lia|].
    rewrite IH, sum_bump. lia. }
  by rewrite Hgen.
Qed.

(** ** Steps of a run *)

Lemma bind_run {A B} (m : M A) (k : A -> M B) (st : State) :
  (m ≫= k) st = match m st with inl e => inl e | inr (x, st') => k x st' end.
Proof. reflexivity. Qed.

Lemma modify_bind {B} f (k : unit -> M B) (st : State) :
  (modify f ≫= k) st = k tt (f st).
Proof. reflexivity. Qed.

Lemma get_bind {B} (k : State -> M B) (st : State) :
  (get ≫= k) st = k st st.
Proof. reflexivity. Qed.

Lemma lift_bind {A B} (r : Result A) x (k : A -> M B) (st : State) :
  r = inr x -> (lift r ≫= k) st = k x st.
Proof. by intros ->. Qed.

Lemma lift_bind_error {A B} (r : Result A) e (k : A -> M B) (st : State) :
  r = inl e -> (lift r ≫= k) st = inl e.
Proof. by intros ->. Qed.

Lemma emit_run e (st : State) : emit e st = inr (tt, logged e st).
Proof. reflexivity. Qed.

Lemma emit_bind {B} e (k : unit -> M B) (st : State) :
  (emit e ≫= k) st = k tt (logged e st).
Proof. reflexivity. Qed.

Lemma on_axes_run i f (st : State) x :
  fig_axes (st_fig st) !! i = Some x ->
  on_axes (AxOne i) f st = inr (tt, upd i (f x) st).
Proof. intros Hx. unfold on_axes. by rewrite Hx. Qed.

Lemma upd_lookup i y (st : State) x :
  fig_axes (st_fig st) !! i = Some x ->
  fig_axes (st_fig (upd i y st)) !! i = Some y.
Proof.
  intros Hx. cbn. apply list_lookup_insert_eq. by eapply lookup_lt_Some.
Qed.

Lemma upd_upd i y z (st : State) : upd i z (upd i y st) = upd i z st.
Proof. unfold upd, set_fig, set_axes. cbn. by rewrite list_insert_insert_eq. Qed.

Lemma upd_id i (st : State) x :
  fig_axes (st_fig st) !! i = Some x -> upd i x st = st.
Proof.
  intros Hx. unfold upd, set_fig, set_axes. rewrite list_insert_id by done.
  by destruct st as [? ? ? ? [] ?].
Qed.

Lemma ret_bind {A B} (x : A) (k : A -> M B) (st : State) :
  (mret x ≫= k) st = k x st.
Proof. reflexivity. Qed.

Lemma on_axes_bind {B} i f (k : unit -> M B) (st : State) x :
  fig_axes (st_fig st) !! i = Some x ->
  (on_axes (AxOne i) f ≫= k) st = k tt (upd i (f x) st).
Proof. intros Hx. by rewrite bind_run, (on_axes_run _ _ _ _ Hx). Qed.

Lemma frame_plot_bind {B} pts i (k : AxHandle -> M B) (st : State) x :
  fig_axes (st_fig st) !! i = Some x ->
  (frame_plot pts (AxOne i) ≫= k) st
  = k (AxOne i) (upd i (draw (FramePlot pts) x) st).
Proof.
  intros Hx. unfold frame_plot.
  by rewrite bind_run, (on_axes_bind _ _ _ _ _ Hx).
Qed.

Lemma series_plot_bind {B} s mk ls i (k : AxHandle -> M B) (st : State) x :
  fig_axes (st_fig st) !! i = Some x ->
  (series_plot s mk ls (AxOne i) ≫= k) st
  = k (AxOne i) (upd i (draw (SeriesPlot s mk ls) x) st).
Proof.
  intros Hx. unfold series_plot.
  by rewrite bind_run, (on_axes_bind _ _ _ _ _ Hx).
Qed.

Lemma get_yticks_bind {B} i (k : list F -> M B) (st : State) x :
  fig_axes (st_fig st) !! i = Some x ->
  (get_yticks (AxOne i) ≫= k) st = k (yticks x) st.
Proof.
  intros Hx. unfold get_yticks, read_axes. rewrite !bind_run. by rewrite Hx.
Qed.

(** ** The two plotting routines *)

Lemma limits_run (a : nat) (st : State) x :
  fig_axes (st_fig st) !! a = Some x ->
  (when_given (arg_xlim args) (set_xlim (AxOne a) 0) ;;
   when_given (arg_ylim args) (set_ylim (AxOne a) 0)) st
  = inr (tt, upd a (with_limits x) st).
Proof.
  intros Hx. unfold with_limits, when_given, set_xlim, set_ylim.
  destruct (arg_xlim args) as [n|], (arg_ylim args) as [m|].
  - rewrite (on_axes_bind _ _ _ _ _ Hx).
    rewrite (on_axes_run _ _ _ _ (upd_lookup _ _ _ _ Hx)). by rewrite upd_upd.
  - rewrite (on_axes_bind _ _ _ _ _ Hx). done.
  - rewrite ret_bind. by rewrite (on_axes_run _ _ _ _ Hx).
  - rewrite ret_bind. by rewrite (upd_id _ _ _ Hx).
Qed.

(** A call on the axes being drawn reads what the call before it left
    there. *)
Ltac on_drawn Hx tac :=
  lazymatch goal with
  | |- _ (upd ?i ?y ?st) = _ => tac (upd_lookup i y st _ Hx)
  end.

Ltac axes_call Hx :=
  on_drawn Hx ltac:(fun H => rewrite (on_axes_bind _ _ _ _ _ H), upd_upd).

Ltac axes_limits Hx :=
  on_drawn Hx ltac:(fun H => rewrite (limits_run _ _ _ H), upd_upd).

Lemma plot_cdf_run data p i (st : State) x :
  has_columns data ->
  fig_axes (st_fig st) !! i = Some x ->
  plot_cdf data p (AxOne i) st
  = inr (tt, upd i (rendered_cdf (partition data p) x) st).
Proof.
  intros [[pv Hp] Hd] Hx.
  assert (df_getitem data "pid" = inr (zip (df_index data) pv)) as Hg.
  { unfold df_getitem. by rewrite Hp. }
  pose proof (df_loc_col_partition data p _ Hg Hd) as Hpart.
  unfold df_loc_col in Hpart. unfold plot_cdf.
  rewrite (lift_bind _ _ _ _ Hg), (lift_bind _ _ _ _ Hpart).
  rewrite (frame_plot_bind _ _ _ _ _ Hx).
  unfold set_xlabel. axes_call Hx.
  on_drawn Hx ltac:(fun H => rewrite (get_yticks_bind _ _ _ _ H)).
  unfold set_yticklabels. axes_call Hx.
  by axes_limits Hx.
Qed.

Lemma global_p_bind {B} p (k : Z -> M B) (st : State) :
  st_p st = Some p -> (global_p ≫= k) st = k p st.
Proof.
  intros Hp. rewrite bind_run. unfold global_p. rewrite bind_run. cbn [get].
  by rewrite Hp.
Qed.

Lemma pid_data_getitem_bind {B} p s (k : Series Z -> M B) (st : State) :
  st_pid_data st !! p = Some s -> (pid_data_getitem p ≫= k) st = k s st.
Proof.
  intros Hd. rewrite bind_run. unfold pid_data_getitem. rewrite bind_run.
  cbn [get]. by rewrite Hd.
Qed.

Lemma set_default_title_run p i (st : State) x :
  st_p st = Some p ->
  fig_axes (st_fig st) !! i = Some x ->
  match arg_subtitle args with
  | Some t => set_title (AxOne i) t
  | None => p' ← global_p; set_title (AxOne i) ("pid=" +:+ pretty p')
  end st
  = inr (tt, upd i (with_title
                      match arg_subtitle args with
                      | Some t => t
                      | None => default_title p
                      end x) st).
Proof.
  intros Hp Hx.
  destruct (arg_subtitle args); [|rewrite (global_p_bind p) by done];
    unfold set_title; by rewrite (on_axes_run _ _ _ _ Hx).
Qed.

Lemma set_default_title_bind {B} p i (k : unit -> M B) (st : State) x :
  st_p st = Some p ->
  fig_axes (st_fig st) !! i = Some x ->
  (match arg_subtitle args with
   | Some t => set_title (AxOne i) t
   | None => p' ← global_p; set_title (AxOne i) ("pid=" +:+ pretty p')
   end ≫= k) st
  = k tt (upd i (with_title
                   match arg_subtitle args with
                   | Some t => t
                   | None => default_title p
                   end x) st).
Proof.
  intros Hp Hx. by rewrite bind_run, (set_default_title_run p _ _ _ Hp Hx).
Qed.

Lemma plot_plot_run data p i (st : State) x :
  st_p st = Some p ->
  st_pid_data st !! p = Some (partition data p) ->
  fig_axes (st_fig st) !! i = Some x ->
  plot_plot (AxOne i) st
  = inr (tt, upd i (rendered_plot p (partition data p) x) st).
Proof.
  intros Hp Hd Hx.
  unfold plot_plot. rewrite (global_p_bind p) by done.
  rewrite (pid_data_getitem_bind _ _ _ _ Hd).
  rewrite (series_plot_bind _ _ _ _ _ _ _ Hx).
  unfold set_ylabel. axes_call Hx.
  unfold set_xlabel. axes_call Hx.
  lazymatch goal with
  | |- _ (upd ?i ?y ?st) = _ =>
      rewrite (set_default_title_bind p i _ (upd i y st) y Hp
                 (upd_lookup i y st _ Hx))
  end.
  rewrite upd_upd. by axes_limits Hx.
Qed.

Lemma do_plot_run data p i (st : State) x :
  has_columns data ->
  st_p st = Some p ->
  st_pid_data st !! p = Some (partition data p) ->
  fig_axes (st_fig st) !! i = Some x ->
  do_plot data p (AxOne i) st
  = inr (tt, upd i (rendered data p x) st).
Proof.
  intros Hc Hp Hd Hx. unfold do_plot, rendered.
  destruct (arg_cdf args); [by apply plot_cdf_run | by apply plot_plot_run].
Qed.

(** ** The first loop *)

Lemma load_pid_run data p (st : State) :
  has_columns data -> load_pid data p st = inr (tt, loaded data st p).
Proof.
  intros [[pv Hp] Hd].
  assert (df_getitem data "pid" = inr (zip (df_index data) pv)) as Hg.
  { unfold df_getitem. by rewrite Hp. }
  pose proof (df_loc_col_partition data p _ Hg Hd) as Hpart.
  unfold load_pid. rewrite modify_bind, emit_bind.
  rewrite (lift_bind _ _ _ _ Hg), (lift_bind _ _ _ _ Hpart).
  unfold pid_data_setitem. rewrite modify_bind.
  rewrite (pid_data_getitem_bind p (partition data p)).
  2:{ cbn. apply lookup_insert_eq. }
  rewrite emit_run. unfold loaded, logged. cbn. by rewrite <- app_assoc.
Qed.

Lemma load_pid_no_pid data p (st : State) :
  df_columns data !! "pid" = None -> load_pid data p st = inl (KeyError "pid").
Proof.
  intros Hp. unfold load_pid. rewrite modify_bind, emit_bind.
  apply lift_bind_error. unfold df_getitem. by rewrite Hp.
Qed.

Lemma load_pid_no_delay data p (st : State) :
  is_Some (df_columns data !! "pid") ->
  df_columns data !! "delay" = None ->
  load_pid data p st = inl (KeyError "delay").
Proof.
  intros [pv Hp] Hd.
  assert (df_getitem data "pid" = inr (zip (df_index data) pv)) as Hg.
  { unfold df_getitem. by rewrite Hp. }
  unfold load_pid. rewrite modify_bind, emit_bind.
  rewrite (lift_bind _ _ _ _ Hg). apply lift_bind_error.
  unfold df_loc_col, df_loc, df_getitem. cbn [df_columns].
  by rewrite lookup_fmap, Hd.
Qed.

Lemma load_loop_run data ps (st : State) :
  has_columns data ->
  for_each ps (load_pid data) st = inr (tt, fold_left (loaded data) ps st).
Proof.
  intros Hc. revert st. induction ps as [|p ps IH]; intros st; [done|].
  cbn [for_each fold_left]. rewrite bind_run, load_pid_run by done. apply IH.
Qed.

Lemma loaded_fold_trace data ps (st : State) :
  st_trace (fold_left (loaded data) ps st) = st_trace st ++ load_trace data ps.
Proof.
  revert st. induction ps as [|p ps IH]; intros st; cbn.
  - by rewrite app_nil_r.
  - rewrite IH. cbn. by rewrite <- app_assoc.
Qed.

Lemma loaded_fold_lookup data ps (st : State) p :
  (p ∈ ps \/ st_pid_data st !! p = Some (partition data p)) ->
  st_pid_data (fold_left (loaded data) ps st) !! p = Some (partition data p).
Proof.
  revert st. induction ps as [|q ps IH]; intros st; cbn.
  - intros [Hin|]; [by apply elem_of_nil in Hin|done].
  - intros [Hin|Hst]; apply IH; cbn.
    + apply elem_of_cons in Hin as [->|]; [right; apply lookup_insert_eq | by left].
    + right. destruct (decide (q = p)) as [->|]; [apply lookup_insert_eq|].
      by rewrite lookup_insert_ne.
Qed.

(** ** The second loop *)

Lemma n_pids_pos : (0 < n_pids)%nat.
Proof. unfold n_pids, arg_pids. cbn. lia. Qed.

Lemma subplots_run (st : State) :
  (if (length pids =? 4)%nat then subplots 2 2
   else subplots (length pids) 1) st
  = inr (handle, set_fig fresh_figure st).
Proof.
  pose proof n_pids_pos as Hpos. unfold handle, fresh_figure.
  change (length pids) with n_pids.
  destruct (Nat.eqb_spec n_pids 4) as [->|Hne4]; [done|].
  unfold subplots.
  destruct (Nat.eqb_spec n_pids 0) as [|_]; [lia|]. cbn [orb Nat.eqb].
  rewrite modify_bind. cbn [andb Nat.eqb]. rewrite Nat.mul_1_r, andb_true_r.
  by destruct (n_pids =? 1)%nat.
Qed.

Lemma pick_axes_run k (st : State) :
  (k < n_pids)%nat ->
  st_row st = row_of k -> st_col st = col_of k ->
  exists st1,
    pick_axes handle st = inr (AxOne k, st1) /\
    st_row st1 = row_of (S k) /\ st_col st1 = col_of (S k) /\
    st_fig st1 = st_fig st /\ st_p st1 = st_p st /\
    st_pid_data st1 = st_pid_data st /\ st_trace st1 = st_trace st.
Proof.
  unfold pick_axes, handle, row_of, col_of.
  change (length pids) with n_pids.
  intros Hk Hrow Hcol.
  destruct (Nat.eqb_spec n_pids 4) as [Hn|Hne4].
  - rewrite get_bind, Hrow, Hcol.
    destruct k as [|[|[|[|k]]]]; [..|lia].
    all: (eexists; split; [reflexivity|]).
    all: cbn in Hrow, Hcol |- *; rewrite ?Hrow, ?Hcol; by cbn.
  - destruct (Nat.ltb_spec 1 n_pids) as [Hn|Hn].
    + destruct (Nat.eqb_spec n_pids 1) as [|_]; [lia|].
      rewrite get_bind, Hrow.
      assert (ax_getitem (AxVec (seq 0 n_pids)) k = inr (AxOne k)) as Hget.
      { unfold ax_getitem. by rewrite lookup_seq_lt. }
      rewrite (lift_bind _ _ _ _ Hget), modify_bind.
      eexists; split; [reflexivity|]. cbn. repeat split; try done. lia.
    + assert (n_pids = 1%nat) as Hn1 by (pose proof n_pids_pos; lia).
      rewrite Hn1 in *. assert (k = 0%nat) as -> by lia.
      rewrite get_bind, modify_bind.
      eexists; split; [reflexivity|]. cbn. repeat split; try done. lia.
Qed.

Lemma place_and_plot_run data k p (st : State) x :
  has_columns data ->
  (k < n_pids)%nat ->
  st_row st = row_of k -> st_col st = col_of k ->
  st_pid_data st !! p = Some (partition data p) ->
  fig_axes (st_fig st) !! k = Some x ->
  exists st',
    place_and_plot data handle p st = inr (tt, st') /\
    st_row st' = row_of (S k) /\ st_col st' = col_of (S k) /\
    st_fig st' = set_axes (<[k := rendered data p x]> (fig_axes (st_fig st))) (st_fig st) /\
    st_pid_data st' = st_pid_data st /\ st_trace st' = st_trace st.
Proof.
  intros Hc Hk Hrow Hcol Hd Hx. unfold place_and_plot. rewrite modify_bind.
  destruct (pick_axes_run k (set_p p st) Hk Hrow Hcol)
    as (st1 & Hpick & Hrow1 & Hcol1 & Hfig1 & Hp1 & Hd1 & Htr1).
  rewrite bind_run, Hpick.
  rewrite (do_plot_run data p k st1 x); try done.
  - eexists; split; [reflexivity|]. cbn. by rewrite Hfig1.
  - by rewrite Hd1.
  - by rewrite Hfig1.
Qed.

Lemma drawn_step data k p :
  arg_pids args !! k = Some p ->
  <[k := rendered data p blank_axes]> (drawn data k) = drawn data (S k).
Proof.
  intros Hp. unfold drawn.
  assert (k < n_pids)%nat as Hk by (by apply lookup_lt_Some in Hp).
  assert (length (map (fun p => rendered data p blank_axes) (take k (arg_pids args))) = k)
    as Hlen.
  { rewrite length_map, length_take. unfold n_pids in Hk. lia. }
  rewrite insert_app_r_alt by lia. rewrite Hlen, Nat.sub_diag.
  rewrite (take_S_r _ _ _ Hp), map_app. cbn [map].
  replace (n_pids - k)%nat with (S (n_pids - S k)) by lia.
  cbn. by rewrite <- app_assoc.
Qed.

Lemma drawn_lookup data k :
  (k < n_pids)%nat -> drawn data k !! k = Some blank_axes.
Proof.
  intros Hk. unfold drawn.
  rewrite lookup_app_r; rewrite length_map, length_take; unfold n_pids in *; [|lia].
  apply lookup_replicate. split; [done|lia].
Qed.

Lemma plot_loop_run data (PD : gmap Z (Series Z)) (TR : list Event) fig0 :
  has_columns data ->
  (forall p, p ∈ arg_pids args -> PD !! p = Some (partition data p)) ->
  forall rest k (st : State),
    rest = drop k (arg_pids args) ->
    st_row st = row_of k -> st_col st = col_of k ->
    st_pid_data st = PD -> st_trace st = TR ->
    st_fig st = set_axes (drawn data k) fig0 ->
    exists st',
      for_each rest (place_and_plot data handle) st = inr (tt, st') /\
      st_pid_data st' = PD /\ st_trace st' = TR /\
      st_fig st' = set_axes (drawn data n_pids) fig0.
Proof.
  intros Hc HPD. induction rest as [|p rest IH]; intros k st Hrest Hrow Hcol Hd Htr Hfig.
  - exists st. repeat split; try done. rewrite Hfig. f_equal.
    symmetry in Hrest. apply drop_nil_inv in Hrest. fold n_pids in Hrest.
    unfold drawn. rewrite !take_ge by (unfold n_pids in *; lia).
    by replace (n_pids - k)%nat with (n_pids - n_pids)%nat by lia.
  - assert (arg_pids args !! k = Some p) as Hp.
    { rewrite <- (Nat.add_0_r k), <- lookup_drop, <- Hrest. done. }
    assert (k < n_pids)%nat as Hk by (by apply lookup_lt_Some in Hp).
    destruct (place_and_plot_run data k p st blank_axes) as
      (st1 & Hrun & Hrow1 & Hcol1 & Hfig1 & Hd1 & Htr1); try done.
    { rewrite Hd. apply HPD. by eapply list_elem_of_lookup_2. }
    { rewrite Hfig. cbn. by apply drawn_lookup. }
    cbn [for_each]. rewrite bind_run, Hrun.
    apply (IH (S k)); try congruence.
    + replace (S k) with (k + 1)%nat by lia.
      by rewrite <- drop_drop, <- Hrest.
    + rewrite Hfig1, Hfig. cbn. unfold set_axes. cbn. by rewrite drawn_step.
Qed.

(** ** The whole run *)

Lemma drawn_all data :
  drawn data n_pids = map (fun p => rendered data p blank_axes) (arg_pids args).
Proof.
  unfold drawn. rewrite take_ge by (unfold n_pids; lia).
  rewrite Nat.sub_diag. apply app_nil_r.
Qed.

Lemma run_spec :
  match read_csv (arg_file args) with
  | inl e => run = inl (Loader e)
  | inr data =>
      match df_columns data !! "pid", df_columns data !! "delay" with
      | None, _ => run = inl (KeyError "pid")
      | Some _, None => run = inl (KeyError "delay")
      | Some _, Some _ =>
          exists st,
            run = inr st /\
            st_fig st = final_figure data /\
            st_trace st = final_trace data /\
            forall p, p ∈ arg_pids args ->
                      st_pid_data st !! p = Some (partition data p)
      end
  end.
Proof.
  unfold run, main, pd_read_csv.
  destruct (read_csv (arg_file args)) as [e|data]; [done|].
  rewrite (lift_bind _ data) by done.
  destruct (df_columns data !! "pid") as [pv|] eqn:Hp.
  2:{ unfold pids, arg_pids. cbn [for_each].
      by rewrite !bind_run, load_pid_no_pid. }
  destruct (df_columns data !! "delay") as [dv|] eqn:Hd.
  2:{ unfold pids, arg_pids. cbn [for_each].
      rewrite !bind_run, load_pid_no_delay; by eauto. }
  assert (has_columns data) as Hc by (split; eauto).
  rewrite bind_run, load_loop_run by done.
  set (st1 := fold_left (loaded data) pids initial).
  assert (st_trace st1 = load_trace data (arg_pids args)) as Htr1.
  { unfold st1. by rewrite loaded_fold_trace. }
  set (st2 := set_row 0 (set_col 0
     (set_fig (set_axes (replicate n_pids blank_axes) (final_figure data)) st1))).
  assert (exists st',
            for_each (arg_pids args) (place_and_plot data handle) st2
            = inr (tt, st') /\
            st_pid_data st' = st_pid_data st1 /\ st_trace st' = st_trace st1 /\
            st_fig st' = set_axes (drawn data n_pids) (final_figure data))
    as (st3 & Hloop & Hd3 & Htr3 & Hfig3).
  { apply (plot_loop_run data _ _ (final_figure data) Hc) with (k := 0%nat);
      try done.
    - intros p Hin. apply loaded_fold_lookup. by left.
    - unfold row_of. by destruct (n_pids =? 4)%nat.
    - unfold col_of. by destruct (n_pids =? 4)%nat. }
  rewrite drawn_all in Hfig3.
  assert (st_fig st3 = final_figure data) as Hfinal by (by rewrite Hfig3).
  rewrite bind_run, subplots_run.
  unfold subplots_adjust. rewrite modify_bind.
  assert (forall B (k : unit -> M B) s,
            st_fig s = {| fig_nrows := fig_nrows fresh_figure;
                          fig_ncols := fig_ncols fresh_figure;
                          fig_sharex := false; fig_sharey := false;
                          fig_hspace := Some (1 # 2); fig_suptitle := None;
                          fig_axes := replicate n_pids blank_axes |} ->
            s = set_fig (st_fig s) st1 ->
            (when_given (arg_title args) suptitle ≫= k) s
            = k tt (set_fig (set_axes (replicate n_pids blank_axes) (final_figure data)) st1))
    as Htitle.
  { intros B k s Hs1 Hs2. unfold when_given, suptitle.
    destruct (arg_title args) as [t|] eqn:Ht.
    - rewrite modify_bind. f_equal. rewrite Hs2. cbn. rewrite Hs1. cbn.
      unfold final_figure, set_axes, set_fig. cbn. by rewrite Ht.
    - rewrite ret_bind. f_equal. rewrite Hs2, Hs1. cbn.
      unfold final_figure, set_axes, set_fig. cbn. by rewrite Ht. }
  rewrite Htitle; [|done..].
  rewrite !modify_bind. fold st2.
  rewrite bind_run. unfold pids. rewrite Hloop.
  unfold when_given, savefig, show, final_trace.
  destruct (arg_output args) as [path|].
  - rewrite bind_run, get_bind, emit_run, get_bind, emit_run.
    eexists; split; [reflexivity|]. cbn. rewrite Hfinal, Htr3, Htr1.
    repeat split; try done.
    + by rewrite <- app_assoc.
    + intros p Hin. rewrite Hd3. apply loaded_fold_lookup. by left.
  - rewrite ret_bind, get_bind, emit_run.
    eexists; split; [reflexivity|]. cbn. rewrite Hfinal, Htr3, Htr1.
    repeat split; try done.
    intros p Hin. rewrite Hd3. apply loaded_fold_lookup. by left.
Qed.

(** ** What a successful run established *)

Lemma run_inv (st : State) :
  run = inr st ->
  exists data,
    read_csv (arg_file args) = inr data /\ has_columns data /\
    st_fig st = final_figure data /\ st_trace st = final_trace data /\
    forall p, p ∈ arg_pids args ->
              st_pid_data st !! p = Some (partition data p).
Proof.
  intros Hrun. pose proof run_spec as Hspec.
  destruct (read_csv (arg_file args)) as [e|data]; [congruence|].
  destruct (df_columns data !! "pid") as [pv|] eqn:Hp; [|congruence].
  destruct (df_columns data !! "delay") as [dv|] eqn:Hd; [|congruence].
  destruct Hspec as (st' & Hrun' & Hfig & Htr & Hpd).
  assert (st' = st) as -> by congruence.
  exists data. repeat split; eauto.
Qed.

Lemma run_inv_data data (st : State) :
  read_csv (arg_file args) = inr data ->
  run = inr st ->
  has_columns data /\
  st_fig st = final_figure data /\ st_trace st = final_trace data /\
  forall p, p ∈ arg_pids args ->
            st_pid_data st !! p = Some (partition data p).
Proof.
  intros Hload Hrun.
  destruct (run_inv st Hrun) as (data' & Hload' & Hrest).
  assert (data' = data) as -> by congruence. exact Hrest.
Qed.

Lemma final_axes_lookup data i p :
  arg_pids args !! i = Some p ->
  fig_axes (final_figure data) !! i = Some (rendered data p blank_axes).
Proof.
  intros Hp. cbn [final_figure fig_axes].
  change (map ?f ?l) with (f <$> l). by rewrite list_lookup_fmap, Hp.
Qed.

Lemma final_axes_length data :
  length (fig_axes (final_figure data)) = length (arg_pids args).
Proof. cbn [final_figure fig_axes]. apply length_map. Qed.

Lemma final_axes_elem data x :
  x ∈ fig_axes (final_figure data) ->
  exists i p, arg_pids args !! i = Some p /\ x = rendered data p blank_axes.
Proof.
  cbn [final_figure fig_axes]. change (map ?f ?l) with (f <$> l).
  intros (p & -> & Hin)%list_elem_of_fmap.
  apply list_elem_of_lookup in Hin as [i Hi]. eauto.
Qed.

Lemma rendered_artists data p :
  ax_artists (rendered data p blank_axes) = [artist_for data p].
Proof.
  unfold rendered, artist_for, rendered_cdf, rendered_plot, with_limits.
  by destruct (arg_cdf args), (arg_xlim args), (arg_ylim args).
Qed.

Lemma rendered_xlim data p :
  ax_xlim (rendered data p blank_axes)
  = match arg_xlim args with Some n => Some (0, n) | None => None end.
Proof.
  unfold rendered, rendered_cdf, rendered_plot, with_limits.
  by destruct (arg_cdf args), (arg_xlim args), (arg_ylim args).
Qed.

Lemma rendered_ylim data p :
  ax_ylim (rendered data p blank_axes)
  = match arg_ylim args with Some n => Some (0, n) | None => None end.
Proof.
  unfold rendered, rendered_cdf, rendered_plot, with_limits.
  by destruct (arg_cdf args), (arg_xlim args), (arg_ylim args).
Qed.

Lemma rendered_plot_labels data p :
  arg_cdf args = false ->
  let x := rendered data p blank_axes in
  ax_xlabel x = Some "Time" /\ ax_ylabel x = Some "latency (µs)" /\
  ax_yticklabels x = None /\
  ax_title x = Some (match arg_subtitle args with
                     | Some t => t
                     | None => default_title p
                     end).
Proof.
  intros Hmode. unfold rendered, rendered_plot, with_limits. rewrite Hmode.
  by destruct (arg_xlim args), (arg_ylim args).
Qed.

Lemma rendered_cdf_labels data p :
  arg_cdf args = true ->
  let x := rendered data p blank_axes in
  ax_xlabel x = Some "latency (µs)" /\ ax_ylabel x = None /\
  ax_title x = None /\
  exists ticks, ax_yticklabels x = Some (map format_percent ticks).
Proof.
  intros Hmode. unfold rendered, rendered_cdf, with_limits. rewrite Hmode.
  destruct (arg_xlim args), (arg_ylim args); cbn; eauto.
Qed.

Lemma rendered_cdf_ticks data p :
  arg_cdf args = true ->
  ax_yticklabels (rendered data p blank_axes)
  = Some (map format_percent
            (yticks (with_xlabel "latency (µs)"
                       (draw (FramePlot (cdf_points (partition data p)))
                             blank_axes)))).
Proof.
  intros Hmode. unfold rendered, rendered_cdf, with_limits. rewrite Hmode.
  by destruct (arg_xlim args), (arg_ylim args).
Qed.

(** ** Percent labels *)

Lemma last_char_append s t :
  last_char (s +:+ t)
  = match last_char t with Some d => Some d | None => last_char s end.
Proof.
  induction s as [|c s IH].
  - change (EmptyString +:+ t) with t. by destruct (last_char t).
  - change (String c s +:+ t) with (String c (s +:+ t)).
    cbn [last_char]. rewrite IH. by destruct (last_char t).
Qed.

Lemma format_percent_is_percentage (x : F) : is_percentage (format_percent x).
Proof.
  unfold is_percentage, format_percent.
  destruct (repr _) as [neg mag|[]|]; try done.
  by rewrite last_char_append.
Qed.

(** ** The columns of the statistics frame *)

Lemma cumsum_from_lookup (acc : F) (l : list F) (j : nat) :
  (j < length l)%nat ->
  cumsum_from acc l !! j = Some (fold_left plus (take (S j) l) acc).
Proof.
  revert acc j. induction l as [|x l IH]; intros acc j Hj; cbn in Hj; [lia|].
  destruct j as [|j]; cbn [cumsum_from]; [by destruct l|].
  cbn [lookup list_lookup]. rewrite IH by lia. done.
Qed.

Lemma cumsum_lookup (l : list F) (j : nat) :
  (j < length l)%nat -> cumsum l !! j = running_sum (take (S j) l).
Proof.
  destruct l as [|x l]; cbn [length]; intros Hj; [lia|].
  destruct j as [|j]; cbn [cumsum]; [by destruct l|].
  cbn [lookup list_lookup]. rewrite cumsum_from_lookup by lia. done.
Qed.

Lemma cdf_stats_spec (delays : list Z) :
  let s := cdf_stats delays in
  StronglySorted Z.lt (sf_delay s) /\
  (forall d, In d (sf_delay s) <-> In d delays) /\
  (forall j d, sf_delay s !! j = Some d ->
               sf_frequency s !! j = Some (count_of d delays)) /\
  sf_pdf s = map (fun c => truediv (of_int c)
                                   (of_int (Z.of_nat (length delays))))
                 (sf_frequency s) /\
  sf_cdf s = cumsum (sf_pdf s) /\
  length (sf_cdf s) = length (sf_delay s).
Proof.
  cbn. rewrite groupby_count_sum. repeat split.
  - apply groupby_count_sorted.
  - by apply groupby_count_keys.
  - by apply groupby_count_keys.
  - intros j d. change (map ?f ?l) with (f <$> l). rewrite !list_lookup_fmap.
    destruct (groupby_count delays !! j) as [[k c]|] eqn:Hj; [|done].
    cbn. intros [= ->]. f_equal.
    apply groupby_count_In. apply list_elem_of_In. by eapply list_elem_of_lookup_2.
  - assert (forall l : list F, length (cumsum l) = length l) as Hlen.
    { assert (forall (l : list F) acc, length (cumsum_from acc l) = length l) as Hfrom.
      { induction l as [|x l IH]; intros acc; cbn; [done|]. by rewrite IH. }
      intros [|x l]; cbn; [done|]. by rewrite Hfrom. }
    by rewrite Hlen, !length_map.
Qed.

(** ** Properties of a run *)

(** C2.  For every requested pid [p], the series the script works on is the
    delay column of exactly the rows whose pid equals [p]: that is what
    [pid_data[p]] holds, what raster mode draws, and what distribution mode
    aggregates.  Every entry of it comes from a row with that pid. *)
Theorem pid_data_is_exact_partition data (st : State) :
  read_csv (arg_file args) = inr data ->
  run = inr st ->
  forall i p, arg_pids args !! i = Some p ->
    st_pid_data st !! p = Some (partition data p) /\
    (forall t d, In (t, d) (partition data p) <->
                 exists r, In r (rows data) /\ row_pid r = p /\
                           row_ts r = t /\ row_delay r = d) /\
    exists x,
      fig_axes (st_fig st) !! i = Some x /\
      ax_artists x =
        [if arg_cdf args
         then FramePlot (cdf_points (partition data p))
         else SeriesPlot (partition data p) "." "None"].
Proof.
  intros Hload Hrun i p Hp.
  destruct (run_inv_data data st Hload Hrun) as (_ & Hfig & _ & Hpd).
  split; [|split].
  - apply Hpd. by eapply list_elem_of_lookup_2.
  - intros t d. unfold partition. rewrite in_map_iff. split.
    + intros (r & [= <- <-] & Hin%list_elem_of_In%list_elem_of_filter).
      exists r. destruct Hin as [Hpid Hin%list_elem_of_In]. done.
    + intros (r & Hin & Hpid & <- & <-). exists r. split; [done|].
      apply list_elem_of_In, list_elem_of_filter. split; [done|].
      by apply list_elem_of_In.
  - exists (rendered data p blank_axes). split.
    + rewrite Hfig. by apply final_axes_lookup.
    + by rewrite rendered_artists.
Qed.

Lemma final_layout_column data :
  length (arg_pids args) <> 4%nat ->
  let fig := final_figure data in
  fig_nrows fig = length (arg_pids args) /\ fig_ncols fig = 1%nat /\
  forall i p, arg_pids args !! i = Some p ->
              exists x, axes_at fig i 0 = Some x /\ shows data p x.
Proof.
  intros Hn. cbn zeta. unfold axes_at. cbn [final_figure fig_nrows fig_ncols].
  fold n_pids in Hn. fold n_pids.
  destruct (Nat.eqb_spec n_pids 4); [done|]. repeat split.
  intros i p Hp. exists (rendered data p blank_axes).
  rewrite Nat.mul_1_r, Nat.add_0_r. split.
  - by apply final_axes_lookup.
  - apply rendered_artists.
Qed.

(** C3.  The layout follows the number of requested pids: one pid gives a
    single axes; two or three give one column with a row per pid, filled
    top to bottom in argument order; exactly four give a 2-by-2 grid filled
    row by row (first pid top left, second top right, third bottom left,
    fourth bottom right). *)
Theorem subplot_layout data (st : State) :
  read_csv (arg_file args) = inr data ->
  run = inr st ->
  let fig := st_fig st in
  let n := length (arg_pids args) in
  length (fig_axes fig) = n /\
  (n = 1%nat ->
     fig_nrows fig = 1%nat /\ fig_ncols fig = 1%nat /\
     exists x, fig_axes fig = [x] /\ shows data (arg_pid0 args) x) /\
  (n = 2%nat \/ n = 3%nat ->
     fig_nrows fig = n /\ fig_ncols fig = 1%nat /\
     forall i p, arg_pids args !! i = Some p ->
                 exists x, axes_at fig i 0 = Some x /\ shows data p x) /\
  (forall p0 p1 p2 p3, arg_pids args = [p0; p1; p2; p3] ->
     fig_nrows fig = 2%nat /\ fig_ncols fig = 2%nat /\
     exists x00 x01 x10 x11,
       axes_at fig 0 0 = Some x00 /\ axes_at fig 0 1 = Some x01 /\
       axes_at fig 1 0 = Some x10 /\ axes_at fig 1 1 = Some x11 /\
       shows data p0 x00 /\ shows data p1 x01 /\
       shows data p2 x10 /\ shows data p3 x11).
Proof.
  intros Hload Hrun.
  destruct (run_inv_data data st Hload Hrun) as (_ & Hfig & _ & _).
  cbn zeta. rewrite Hfig. split; [apply final_axes_length|]. split; [|split].
  - intros Hn.
    destruct (final_layout_column data) as (Hrows & Hcols & Hall); [lia|].
    rewrite Hrows, Hcols, Hn. repeat split.
    exists (rendered data (arg_pid0 args) blank_axes). split.
    + cbn [final_figure fig_axes]. unfold arg_pids in *.
      destruct (arg_pids_more args); [done|]. cbn in Hn. lia.
    + apply rendered_artists.
  - intros Hn. apply final_layout_column. lia.
  - intros p0 p1 p2 p3 Hpids. unfold axes_at.
    cbn [final_figure fig_nrows fig_ncols fig_axes]. unfold n_pids.
    rewrite Hpids. cbn. repeat split.
    eexists _, _, _, _. repeat split; apply rendered_artists.
Qed.

(** C4 (as amended).  More than four pids take the same path as two or
    three: one column with a row per pid, filled top to bottom in argument
    order. *)
Theorem more_than_four_pids_stack_in_a_column data (st : State) :
  read_csv (arg_file args) = inr data ->
  run = inr st ->
  (4 < length (arg_pids args))%nat ->
  let fig := st_fig st in
  fig_nrows fig = length (arg_pids args) /\ fig_ncols fig = 1%nat /\
  length (fig_axes fig) = length (arg_pids args) /\
  forall i p, arg_pids args !! i = Some p ->
              exists x, axes_at fig i 0 = Some x /\ shows data p x.
Proof.
  intros Hload Hrun Hn.
  destruct (run_inv_data data st Hload Hrun) as (_ & Hfig & _ & _).
  cbn zeta. rewrite Hfig.
  destruct (final_layout_column data) as (Hrows & Hcols & Hall); [lia|].
  repeat split; try done. apply final_axes_length.
Qed.

(** C6.  The mode is chosen by [--cdf] alone: [do_plot] is [plot_cdf] when
    the flag is set and [plot_plot] otherwise, and after the run every
    pid's axes carries exactly one artist and the labels of the one routine
    that ran, none of the other's. *)
Theorem modes_are_exclusive data (st : State) :
  read_csv (arg_file args) = inr data ->
  run = inr st ->
  (forall p a, do_plot data p a
               = if arg_cdf args then plot_cdf data p a else plot_plot a) /\
  forall i p, arg_pids args !! i = Some p ->
  exists x,
    fig_axes (st_fig st) !! i = Some x /\
    (arg_cdf args = true ->
       ax_artists x = [FramePlot (cdf_points (partition data p))] /\
       ax_xlabel x = Some "latency (µs)" /\ ax_ylabel x = None /\
       ax_title x = None /\ is_Some (ax_yticklabels x)) /\
    (arg_cdf args = false ->
       ax_artists x = [SeriesPlot (partition data p) "." "None"] /\
       ax_xlabel x = Some "Time" /\ ax_ylabel x = Some "latency (µs)" /\
       is_Some (ax_title x) /\ ax_yticklabels x = None).
Proof.
  intros Hload Hrun. split; [done|]. intros i p Hp.
  destruct (run_inv_data data st Hload Hrun) as (_ & Hfig & _ & _).
  exists (rendered data p blank_axes). split.
  { rewrite Hfig. by apply final_axes_lookup. }
  split; intros Hmode.
  - destruct (rendered_cdf_labels data p Hmode) as (Hx & Hy & Ht & ticks & Hticks).
    rewrite rendered_artists. unfold artist_for. rewrite Hmode.
    repeat split; first [done | by rewrite Hticks].
  - destruct (rendered_plot_labels data p Hmode) as (Hx & Hy & Hl & Ht).
    rewrite rendered_artists. unfold artist_for. rewrite Hmode.
    repeat split; first [done | by rewrite Ht].
Qed.

(** C7.  The limits are optional and the same for all subplots: with
    [--xlim N] every subplot is asked for the x range [(0, N)], with
    [--ylim N] for the y range [(0, N)], in raster mode as in distribution
    mode; without the flag no range is set, no axis is shared between
    subplots, and each subplot holds only its own pid's data, so each
    scales to its own data. *)
Theorem axis_limits data (st : State) :
  read_csv (arg_file args) = inr data ->
  run = inr st ->
  let fig := st_fig st in
  fig_sharex fig = false /\ fig_sharey fig = false /\
  (forall x, In x (fig_axes fig) ->
     ax_xlim x = match arg_xlim args with
                 | Some n => Some (0, n)
                 | None => None
                 end /\
     ax_ylim x = match arg_ylim args with
                 | Some n => Some (0, n)
                 | None => None
                 end) /\
  (forall i p, arg_pids args !! i = Some p ->
     exists x, fig_axes fig !! i = Some x /\ shows data p x).
Proof.
  intros Hload Hrun.
  destruct (run_inv_data data st Hload Hrun) as (_ & Hfig & _ & _).
  cbn zeta. rewrite Hfig. split; [done|]. split; [done|]. split.
  - intros x (i & p & _ & ->)%list_elem_of_In%final_axes_elem. split.
    + apply rendered_xlim.
    + apply rendered_ylim.
  - intros i p Hp. exists (rendered data p blank_axes). split.
    + by apply final_axes_lookup.
    + apply rendered_artists.
Qed.

(** C8.  In raster mode every subplot has a title: the [--subtitle] string
    when one is given, the same on every subplot, and otherwise ["pid="]
    followed by the decimal form of that subplot's pid. *)
Theorem raster_titles (st : State) :
  run = inr st ->
  arg_cdf args = false ->
  length (fig_axes (st_fig st)) = length (arg_pids args) /\
  forall i p, arg_pids args !! i = Some p ->
  exists x,
    fig_axes (st_fig st) !! i = Some x /\
    ax_title x = Some (match arg_subtitle args with
                       | Some t => t
                       | None => "pid=" +:+ pretty p
                       end).
Proof.
  intros Hrun Hmode.
  destruct (run_inv st Hrun) as (data & _ & _ & Hfig & _ & _).
  rewrite Hfig. split; [apply final_axes_length|]. intros i p Hp.
  exists (rendered data p blank_axes). split.
  - by apply final_axes_lookup.
  - by destruct (rendered_plot_labels data p Hmode) as (_ & _ & _ & Ht).
Qed.

(** C9.  The figure is always shown, as the last thing the script does.  It
    is saved if and only if [--output] is given, to exactly that path, and
    the save comes before the display; everything before that is terminal
    output. *)
Theorem output_then_display (st : State) :
  run = inr st ->
  exists printed,
    Forall is_print printed /\
    st_trace st =
      printed
      ++ match arg_output args with
         | Some path => [Savefig path (st_fig st)]
         | None => []
         end
      ++ [Show (st_fig st)].
Proof.
  intros Hrun.
  destruct (run_inv st Hrun) as (data & _ & _ & Hfig & Htr & _).
  exists (load_trace data (arg_pids args)). split.
  - unfold load_trace. generalize (arg_pids args).
    induction l as [|p l IH]; cbn; [constructor|].
    by repeat constructor.
  - by rewrite Htr, Hfig.
Qed.

(** C5 (as amended).  An error of the loader is passed on unchanged.  Once
    the table is loaded, the run fails only if the table lacks the [pid] or
    the [delay] column, with a [KeyError] naming it; with both columns
    present the run succeeds. *)
Theorem errors_of_a_run :
  match read_csv (arg_file args) with
  | inl e => run = inl (Loader e)
  | inr data =>
      match df_columns data !! "pid", df_columns data !! "delay" with
      | None, _ => run = inl (KeyError "pid")
      | Some _, None => run = inl (KeyError "delay")
      | Some _, Some _ => exists st, run = inr st
      end
  end.
Proof.
  pose proof run_spec as Hspec.
  destruct (read_csv (arg_file args)) as [e|data]; [done|].
  destruct (df_columns data !! "pid"); [|done].
  destruct (df_columns data !! "delay"); [|done].
  destruct Hspec as (st & Hrun & _). eauto.
Qed.

(** ** Further properties of a run *)

Lemma loaded_fold_dom data ps (st : State) :
  dom (st_pid_data (fold_left (loaded data) ps st))
  = list_to_set ps ∪ dom (st_pid_data st).
Proof.
  revert st. induction ps as [|p ps IH]; intros st; cbn [fold_left].
  - by rewrite list_to_set_nil, (left_id_L ∅ (∪)).
  - rewrite IH. cbn [loaded st_pid_data].
    rewrite dom_insert_L, list_to_set_cons.
    by rewrite (comm_L (∪) {[p]} (list_to_set ps)), <- (assoc_L (∪)).
Qed.

Lemma run_pid_data data (st : State) :
  read_csv (arg_file args) = inr data ->
  run = inr st ->
  st_pid_data st = st_pid_data (fold_left (loaded data) pids initial).
Proof.
  intros Hload Hrun.
  destruct (run_inv_data data st Hload Hrun) as (Hc & _).
  revert Hrun. unfold run, main, pd_read_csv. rewrite Hload.
  rewrite (lift_bind _ data) by done.
  rewrite bind_run, load_loop_run by done.
  set (st1 := fold_left (loaded data) pids initial).
  rewrite bind_run, subplots_run.
  unfold subplots_adjust. rewrite modify_bind.
  assert (forall B (k : unit -> M B) (s : State),
            st_pid_data s = st_pid_data st1 ->
            exists s', (when_given (arg_title args) suptitle ≫= k) s = k tt s' /\
                       st_pid_data s' = st_pid_data st1 /\
                       st_fig s' = match arg_title args with
                                   | Some t =>
                                       {| fig_nrows := fig_nrows (st_fig s);
                                          fig_ncols := fig_ncols (st_fig s);
                                          fig_sharex := fig_sharex (st_fig s);
                                          fig_sharey := fig_sharey (st_fig s);
                                          fig_hspace := fig_hspace (st_fig s);
                                          fig_suptitle := Some t;
                                          fig_axes := fig_axes (st_fig s) |}
                                   | None => st_fig s
                                   end) as Htitle.
  { intros B k s Hs. unfold when_given, suptitle.
    destruct (arg_title args); eexists; (split; [reflexivity|]); by cbn. }
  edestruct Htitle as (s2 & -> & Hd2 & Hfig2); [reflexivity|].
  rewrite !modify_bind.
  set (st2 := set_row 0 (set_col 0 s2)).
  assert (exists st',
            for_each (arg_pids args) (place_and_plot data handle) st2
            = inr (tt, st') /\
            st_pid_data st' = st_pid_data st1 /\ st_trace st' = st_trace s2 /\
            st_fig st' = set_axes (drawn data n_pids) (st_fig s2))
    as (st3 & Hloop & Hd3 & _ & _).
  { apply (plot_loop_run data _ _ (st_fig s2) Hc) with (k := 0%nat); try done.
    - intros p Hin. apply loaded_fold_lookup. by left.
    - unfold row_of. by destruct (n_pids =? 4)%nat.
    - unfold col_of. by destruct (n_pids =? 4)%nat.
    - cbn. rewrite Hfig2. unfold drawn. cbn.
      by destruct (arg_title args). }
  rewrite bind_run. unfold pids. rewrite Hloop.
  unfold when_given, savefig, show.
  destruct (arg_output args) as [path|].
  - rewrite bind_run, get_bind, emit_run, get_bind, emit_run.
    by intros [= <-].
  - rewrite ret_bind, get_bind, emit_run. by intros [= <-].
Qed.

(** X1.  The figure's title is the [--title] string when one is given and
    is left unset otherwise; the vertical spacing between subplots is
    always 0.5. *)
Theorem figure_title_and_spacing (st : State) :
  run = inr st ->
  fig_suptitle (st_fig st) = arg_title args /\
  fig_hspace (st_fig st) = Some (1 # 2).
Proof.
  intros Hrun. destruct (run_inv st Hrun) as (data & _ & _ & -> & _). done.
Qed.

(** X2.  The terminal output comes first and is, for each requested pid in
    argument order (a pid given twice is printed twice), the pid followed
    by the summary of its partition; nothing is printed once the figure is
    saved or shown. *)
Theorem terminal_output data (st : State) :
  read_csv (arg_file args) = inr data ->
  run = inr st ->
  exists rest,
    st_trace st
    = flat_map (fun p => [Print (pretty p); PrintDescribe (partition data p)])
               (arg_pids args)
      ++ rest /\
    Forall (fun e => ~ is_print e) rest.
Proof.
  intros Hload Hrun.
  destruct (run_inv_data data st Hload Hrun) as (_ & _ & -> & _).
  eexists. split; [reflexivity|].
  destruct (arg_output args); repeat constructor; by intros [].
Qed.

(** X3.  After the run the keys of [pid_data] are exactly the requested
    pids: one entry per distinct pid, none for any other pid of the
    table. *)
Theorem pid_data_keys data (st : State) :
  read_csv (arg_file args) = inr data ->
  run = inr st ->
  dom (st_pid_data st) = (list_to_set (arg_pids args) : gset Z).
Proof.
  intros Hload Hrun. rewrite (run_pid_data data st Hload Hrun).
  rewrite loaded_fold_dom. unfold pids. cbn [initial st_pid_data].
  by rewrite dom_empty_L, (right_id_L ∅ (∪)).
Qed.

(** X4.  A pid requested twice gets two subplots, and they are identical. *)
Theorem repeated_pid_repeats_subplot (st : State) i j p :
  run = inr st ->
  arg_pids args !! i = Some p ->
  arg_pids args !! j = Some p ->
  is_Some (fig_axes (st_fig st) !! i) /\
  fig_axes (st_fig st) !! i = fig_axes (st_fig st) !! j.
Proof.
  intros Hrun Hi Hj. destruct (run_inv st Hrun) as (data & _ & _ & -> & _).
  rewrite (final_axes_lookup data i p Hi), (final_axes_lookup data j p Hj).
  eauto.
Qed.

(** X5.  The grid has exactly as many cells as there are requested pids,
    and every cell is drawn on exactly once: no subplot is left blank and
    none is drawn over. *)
Theorem every_cell_drawn_once (st : State) :
  run = inr st ->
  (fig_nrows (st_fig st) * fig_ncols (st_fig st))%nat = length (arg_pids args) /\
  length (fig_axes (st_fig st)) = length (arg_pids args) /\
  forall x, In x (fig_axes (st_fig st)) -> length (ax_artists x) = 1%nat.
Proof.
  intros Hrun. destruct (run_inv st Hrun) as (data & _ & _ & -> & _).
  split; [|split].
  - cbn [final_figure fig_nrows fig_ncols]. fold n_pids.
    destruct (Nat.eqb_spec n_pids 4) as [->|]; [done|lia].
  - apply final_axes_length.
  - intros x (i & p & _ & ->)%list_elem_of_In%final_axes_elem.
    by rewrite rendered_artists.
Qed.

(** X6.  In distribution mode the tick labels are fixed from the ticks of
    the axes as it stood right after plotting and labelling the x axis:
    before [--xlim] and [--ylim] were applied.  The labels therefore do not
    follow the limits. *)
Theorem tick_labels_precede_limits (st : State) :
  run = inr st ->
  arg_cdf args = true ->
  forall i p, arg_pids args !! i = Some p ->
  exists x x1,
    fig_axes (st_fig st) !! i = Some x /\
    ax_yticklabels x = Some (map format_percent (yticks x1)) /\
    ax_artists x1 = ax_artists x /\ ax_xlabel x1 = ax_xlabel x /\
    ax_xlim x1 = None /\ ax_ylim x1 = None /\ ax_yticklabels x1 = None.
Proof.
  intros Hrun Hmode i p Hp.
  destruct (run_inv st Hrun) as (data & _ & _ & -> & _).
  eexists _, _. split; [by apply final_axes_lookup|].
  unfold rendered, rendered_cdf, with_limits. rewrite Hmode.
  destruct (arg_xlim args), (arg_ylim args); cbn; repeat split; reflexivity.
Qed.

Lemma partition_absent data p :
  (forall r, In r (rows data) -> row_pid r <> p) -> partition data p = [].
Proof.
  unfold partition. intros Hno.
  induction (rows data) as [|r l IH]; [done|].
  rewrite filter_cons, decide_False by (apply Hno; by left).
  apply IH. intros r' Hr'. apply Hno. by right.
Qed.

(** X7.  Selecting a pid that no row of the table carries is not an error:
    the loop stores an empty series under that pid and goes on. *)
Theorem absent_pid_selects_empty_series data p (st : State) :
  has_columns data ->
  (forall r, In r (rows data) -> row_pid r <> p) ->
  exists st',
    load_pid data p st = inr (tt, st') /\
    st_pid_data st' !! p = Some [] /\
    st_fig st' = st_fig st.
Proof.
  intros Hc Hno. rewrite (load_pid_run data p st Hc).
  eexists. split; [reflexivity|]. cbn [loaded st_pid_data st_fig].
  rewrite partition_absent by done. split; [apply lookup_insert_eq|done].
Qed.

End Script.

(** ** Examples *)

Example groupby_count_example :
  groupby_count [5; 3; 5; 1; 3; 5] = [(1, 1); (3, 2); (5, 3)].
Proof. reflexivity. Qed.

Example cdf_stats_float_example :
  sf_cdf (cdf_stats (F := float) [5; 3; 5; 1; 3; 5])
  = [0x1.5555555555555p-3; 0.5; 1]%float.
Proof. reflexivity. Qed.

Example format_percent_examples :
  map (format_percent (F := float))
      [0; 0.5; 0x1.999999999999ap-3; 12345.5; -0.25]%float
  = ["0.00%"; "50.00%"; "20.00%"; "1,234,550.00%"; "-25.00%"].
Proof. reflexivity. Qed.

Example format_percent_rounds_half_even :
  map (format_percent (F := float))
      [0x1.47ae147ae147bp-10; 0x1.eb851eb851eb8p-9]%float
  = ["0.12%"; "0.38%"].
Proof. reflexivity. Qed.

(** ** Running totals *)

Lemma totals_from_bounds acc l :
  Forall (fun c => 0 < c) l ->
  Forall (fun s => acc < s <= acc + sum l) (totals_from acc l).
Proof.
  intros Hpos. revert acc.
  induction Hpos as [|x l Hx Hl IH]; intros acc; cbn [totals_from].
  - constructor.
  - rewrite sum_cons. constructor.
    + assert (0 <= sum l); [|lia]. clear IH.
      induction Hl as [|y l Hy Hl IH]; [done|]. rewrite sum_cons. lia.
    + eapply Forall_impl; [apply IH|]. cbn. lia.
Qed.

Lemma totals_from_sorted acc l :
  Forall (fun c => 0 < c) l -> StronglySorted Z.lt (totals_from acc l).
Proof.
  intros Hpos. revert acc.
  induction Hpos as [|x l Hx Hl IH]; intros acc; cbn [totals_from].
  - constructor.
  - constructor; [apply IH|].
    eapply Forall_impl; [by apply totals_from_bounds|]. cbn. lia.
Qed.

Lemma totals_from_last acc l :
  l <> [] -> last (totals_from acc l) = Some (acc + sum l).
Proof.
  revert acc. induction l as [|x l IH]; intros acc Hne; [done|].
  cbn [totals_from]. rewrite last_cons, sum_cons.
  destruct l as [|y l]; [cbn; f_equal; lia|].
  rewrite IH by done. f_equal. lia.
Qed.

(** ** Percent labels, read back

    What [format_percent] writes, read by [read_percent]: the reading gives
    back the sign and the value to the nearest hundredth. *)

Lemma round_half_even_close (q : Q) :
  (Qabs (inject_Z (round_half_even q) - q) <= 1 # 2)%Q.
Proof.
  destruct q as [n d]. unfold round_half_even. cbn [Qnum Qden].
  pose proof (Z.div_mod n (Zpos d) ltac:(lia)) as Hdm.
  pose proof (Z.mod_pos_bound n (Zpos d) ltac:(lia)) as Hmod.
  set (fl := n / Zpos d) in *. set (r := n mod Zpos d) in *.
  apply Qabs_Qle_condition.
  assert (forall z : Z, (- (1 # 2) <= inject_Z z - (n # d))%Q <-> 2 * n - Zpos d <= 2 * Zpos d * z) as Hlo.
  { intros z. unfold Qle, Qminus, Qplus, Qopp, inject_Z. cbn. lia. }
  assert (forall z : Z, (inject_Z z - (n # d) <= 1 # 2)%Q <-> 2 * Zpos d * z <= 2 * n + Zpos d) as Hhi.
  { intros z. unfold Qle, Qminus, Qplus, Qopp, inject_Z. cbn. lia. }
  rewrite Hlo, Hhi.
  destruct (Z.compare_spec (2 * r) (Zpos d)); [destruct (Z.even fl)| |]; nia.
Qed.

Lemma round_half_even_nonneg (q : Q) : (0 <= q)%Q -> 0 <= round_half_even q.
Proof.
  destruct q as [n d]. unfold Qle, round_half_even. cbn. intros Hn.
  assert (0 <= n / Zpos d) by (apply Z.div_pos; lia).
  destruct (_ ?= _); [destruct (Z.even _)| |]; lia.
Qed.


Lemma digit_not_punctuation c d :
  digit_value c = Some d ->
  Ascii.eqb c "." = false /\ Ascii.eqb c "," = false /\ Ascii.eqb c "-" = false.
Proof.
  destruct c as [[] [] [] [] [] [] [] []]; vm_compute; intros; done.
Qed.

Lemma digits_value_app acc ds ds' :
  digits_value acc (ds ++ ds') = digits_value (digits_value acc ds) ds'.
Proof.
  revert acc. induction ds as [|c ds IH]; intros acc; [done|].
  cbn [app digits_value]. by destruct (digit_value c).
Qed.

Lemma read_hundredths_digits acc ds tail :
  Forall (fun c => c = ","%char \/ is_Some (digit_value c)) ds ->
  read_hundredths acc (ds ++ tail) = read_hundredths (digits_value acc ds) tail.
Proof.
  intros Hds. revert acc. induction Hds as [|c ds Hc Hds IH]; intros acc; [done|].
  cbn [app read_hundredths digits_value].
  destruct Hc as [->|[d Hd]]; [by cbn|].
  destruct (digit_not_punctuation c d Hd) as (-> & -> & _). by rewrite Hd.
Qed.

Lemma digits_value_strip acc ds :
  digits_value acc (List.filter (fun c => negb (Ascii.eqb c ",")) ds)
  = digits_value acc ds.
Proof.
  revert acc. induction ds as [|c ds IH]; intros acc; [done|].
  cbn [List.filter digits_value].
  destruct (Ascii.eqb_spec c ",") as [->|Hne]; cbn [negb digits_value]; [by cbn|].
  by destruct (digit_value c).
Qed.

Lemma group3_strip room ds :
  Forall (fun c => is_Some (digit_value c)) ds ->
  List.filter (fun c => negb (Ascii.eqb c ",")) (group3 room ds) = ds.
Proof.
  intros Hds. revert room. induction Hds as [|c ds [d Hd] Hds IH]; intros room; [done|].
  destruct (digit_not_punctuation c d Hd) as (_ & Hc & _).
  destruct room; cbn [group3 List.filter Ascii.eqb]; cbn; rewrite Hc; cbn;
    by rewrite IH.
Qed.

Lemma group3_chars room ds :
  Forall (fun c => is_Some (digit_value c)) ds ->
  Forall (fun c => c = ","%char \/ is_Some (digit_value c)) (group3 room ds).
Proof.
  intros Hds. revert room. induction Hds as [|c ds Hc Hds IH]; intros room;
    [constructor|].
  destruct room; cbn [group3].
  - constructor; [by left|]. constructor; [by right|]. apply IH.
  - constructor; [by right|]. apply IH.
Qed.

Lemma thousands_chars ds :
  Forall (fun c => is_Some (digit_value c)) ds ->
  Forall (fun c => c = ","%char \/ is_Some (digit_value c))
         (rev (group3 3 (rev ds))) /\
  forall acc, digits_value acc (rev (group3 3 (rev ds))) = digits_value acc ds.
Proof.
  intros Hds.
  assert (Forall (fun c => is_Some (digit_value c)) (rev ds)) as Hrev.
  { apply List.Forall_forall. intros c Hc%in_rev.
    rewrite List.Forall_forall in Hds. by apply Hds. }
  split.
  - apply List.Forall_forall. intros c Hc%in_rev.
    pose proof (group3_chars 3 _ Hrev) as H. rewrite List.Forall_forall in H.
    by apply H.
  - intros acc. rewrite <- digits_value_strip, List.filter_rev, group3_strip by done.
    by rewrite rev_involutive.
Qed.

Lemma pretty_N_char_value x :
  (x < 10)%N -> digit_value (pretty_N_char x) = Some (Z.of_N x).
Proof.
  intros Hx.
  assert (x = 0 \/ x = 1 \/ x = 2 \/ x = 3 \/ x = 4 \/ x = 5 \/ x = 6 \/ x = 7
          \/ x = 8 \/ x = 9)%N as H by lia.
  repeat (destruct H as [->|H]; [done|]). by subst.
Qed.

Lemma list_ascii_of_string_app s t :
  list_ascii_of_string (s +:+ t)
  = list_ascii_of_string s ++ list_ascii_of_string t.
Proof.
  induction s as [|c s IH]; [done|].
  change (String c s +:+ t) with (String c (s +:+ t)). cbn. by rewrite IH.
Qed.

Lemma pretty_N_go_digits x s :
  exists ds,
    list_ascii_of_string (pretty_N_go x s) = ds ++ list_ascii_of_string s /\
    Forall (fun c => is_Some (digit_value c)) ds /\
    forall acc,
      digits_value acc ds = acc * 10 ^ Z.of_nat (length ds) + Z.of_N x.
Proof.
  revert s. induction (N.lt_wf_0 x) as [x _ IH]; intros s.
  destruct (N.eq_dec x 0%N) as [->|Hx].
  { exists []. rewrite pretty_N_go_0. repeat split; [constructor|].
    intros acc. cbn. lia. }
  rewrite pretty_N_go_step by lia.
  destruct (IH (x `div` 10)%N ltac:(apply N.div_lt; lia)
              (String (pretty_N_char (x `mod` 10)) s))
    as (ds & Hds & Hall & Hval).
  pose proof (pretty_N_char_value (x `mod` 10)%N ltac:(apply N.mod_lt; lia)) as Hc.
  exists (ds ++ [pretty_N_char (x `mod` 10)]). split; [|split].
  - rewrite Hds. cbn [list_ascii_of_string]. by rewrite <- app_assoc.
  - apply Forall_app. split; [done|]. repeat constructor. by rewrite Hc.
  - intros acc. rewrite digits_value_app, Hval. cbn [digits_value]. rewrite Hc.
    rewrite length_app, Nat2Z.inj_add. cbn [length].
    rewrite Z.pow_add_r by lia. change (10 ^ Z.of_nat 1) with 10.
    pose proof (N.div_mod x 10%N ltac:(lia)) as Hdm.
    assert (Z.of_N x = 10 * Z.of_N (x `div` 10) + Z.of_N (x `mod` 10)) by lia.
    lia.
Qed.

Lemma pretty_Z_digits (q : Z) :
  0 <= q ->
  Forall (fun c => is_Some (digit_value c)) (list_ascii_of_string (pretty q)) /\
  digits_value 0 (list_ascii_of_string (pretty q)) = q.
Proof.
  intros Hq. destruct q as [|p|p]; [| |lia].
  { split; [|done]. repeat constructor. by eexists. }
  change (pretty (Zpos p)) with (pretty_N_go (Npos p) "").
  destruct (pretty_N_go_digits (Npos p) "") as (ds & Hds & Hall & Hval).
  rewrite Hds. cbn [list_ascii_of_string]. rewrite app_nil_r.
  split; [done|]. rewrite Hval. cbn. lia.
Qed.

Lemma two_digits_chars r :
  0 <= r < 100 ->
  exists a b,
    list_ascii_of_string (two_digits r) = [a; b] /\
    digit_value a = Some (r / 10) /\ digit_value b = Some (r mod 10).
Proof.
  intros Hr.
  assert (exists k : nat, r = Z.of_nat k /\ (k < 100)%nat) as (k & -> & Hk).
  { exists (Z.to_nat r). lia. }
  do 100 (destruct k as [|k]; [by eexists _, _|]). lia.
Qed.

Lemma read_percent_fixed2 neg mag :
  (0 <= mag)%Q ->
  read_percent (fixed2 neg mag +:+ "%")
  = Some (neg, round_half_even (mag * inject_Z 100)).
Proof.
  intros Hmag. unfold fixed2.
  set (n := round_half_even (mag * inject_Z 100)).
  assert (0 <= n) as Hn.
  { apply round_half_even_nonneg. apply Qmult_le_0_compat; [done|]. by cbn. }
  pose proof (Z.div_mod n 100 ltac:(lia)) as Hdm.
  pose proof (Z.mod_pos_bound n 100 ltac:(lia)) as Hmod.
  assert (0 <= n / 100) as Hq by (apply Z.div_pos; lia).
  destruct (pretty_Z_digits (n / 100) Hq) as (Hds & Hval).
  destruct (thousands_chars _ Hds) as (Hchars & Hsame).
  destruct (two_digits_chars (n mod 100) Hmod) as (a & b & Hab & Ha & Hb).
  pose proof (Z.div_mod (n mod 100) 10 ltac:(lia)) as Hdm'.
  unfold read_percent, thousands.
  rewrite !list_ascii_of_string_app, list_ascii_of_string_of_list_ascii, Hab.
  rewrite <- !app_assoc.
  set (T := rev (group3 3 (rev (list_ascii_of_string (pretty (n / 100)))))) in *.
  assert (read_hundredths 0 (T ++ ["."%char; a; b; "%"%char]) = Some n)
    as Hread.
  { rewrite read_hundredths_digits by done. rewrite Hsame, Hval.
    cbn. rewrite Ha, Hb. f_equal. lia. }
  destruct neg.
  - cbn [list_ascii_of_string app]. cbn [Ascii.eqb Bool.eqb]. by rewrite Hread.
  - cbn [list_ascii_of_string app] in *.
    destruct T as [|h T'] eqn:HT.
    + cbn [app] in *. cbn [Ascii.eqb Bool.eqb]. by rewrite Hread.
    + cbn [app] in *.
      assert (Ascii.eqb h "-" = false) as ->.
      { apply Forall_cons_1 in Hchars as [[->|[d Hd]] _]; [done|].
        by destruct (digit_not_punctuation h d Hd) as (_ & _ & ->). }
      by rewrite Hread.
Qed.

Lemma to_repr_nonneg x neg mag :
  Float64.to_repr x = Finite neg mag -> (0 <= mag)%Q.
Proof.
  unfold Float64.to_repr. destruct (Prim2SF x) as [s|s| |s m e]; try done.
  - by intros [= _ <-].
  - intros [= _ <-]. apply Qmult_le_0_compat; [done|].
    destruct e as [|p|p]; cbn [Float64.pow2]; [done| |done].
    change 0%Q with (inject_Z 0). rewrite <- Zle_Qle.
    change (Z.pow_pos 2 p) with (2 ^ Zpos p). apply Z.pow_nonneg. lia.
Qed.

Lemma format_percent_writes (t : float) : writes_percent t (format_percent t).
Proof.
  split; [apply format_percent_is_percentage|].
  unfold format_percent.
  destruct (repr (times t (of_int 100))) as [neg mag|neg|] eqn:Hr; [|done|done].
  exists (round_half_even (mag * inject_Z 100)). split.
  - apply read_percent_fixed2. by eapply to_repr_nonneg, Hr.
  - apply round_half_even_close.
Qed.

(** C1.  In distribution mode the subplot of each requested pid draws one
    line: its x values are the distinct delays of that pid's rows in
    increasing order; each delay is counted, the count is divided by the
    number of that pid's rows (pdf), the pdf is summed left to right (cdf),
    and the cdf is plotted against the delay.  The y tick labels are the
    tick positions of that plot, each written as a percentage: the tick
    times 100 to two decimals, followed by a percent sign. *)
Theorem distribution_mode_plots_empirical_cdf
    (read_csv : string -> LoadError + DataFrame) (yticks : Axes -> list float)
    (args : Args) data (st : State) :
  read_csv (arg_file args) = inr data ->
  run read_csv yticks args = inr st ->
  arg_cdf args = true ->
  forall i p, arg_pids args !! i = Some p ->
  exists x,
    fig_axes (st_fig st) !! i = Some x /\
    let delays := map snd (partition data p) in
    let s := cdf_stats (F := float) delays in
    let plotted :=
      with_xlabel "latency (µs)"
        (draw (FramePlot (zip (sf_delay s) (sf_cdf s))) blank_axes) in
    ax_artists x = [FramePlot (zip (sf_delay s) (sf_cdf s))] /\
    StronglySorted Z.lt (sf_delay s) /\
    (forall d, In d (sf_delay s) <-> In d delays) /\
    (forall j d, sf_delay s !! j = Some d ->
                 sf_frequency s !! j = Some (count_of d delays)) /\
    sf_pdf s = map (fun c => truediv (of_int c)
                                     (of_int (Z.of_nat (length delays))))
                   (sf_frequency s) /\
    (forall j, (j < length (sf_pdf s))%nat ->
               sf_cdf s !! j = running_sum (take (S j) (sf_pdf s))) /\
    ax_yticklabels x = Some (map format_percent (yticks plotted)) /\
    Forall (fun t => writes_percent t (format_percent t)) (yticks plotted).
Proof.
  intros Hload Hrun Hmode i p Hp.
  destruct (run_inv_data read_csv yticks args data st Hload Hrun)
    as (_ & Hfig & _ & _).
  exists (rendered yticks args data p blank_axes). split.
  { rewrite Hfig. by apply final_axes_lookup. }
  destruct (cdf_stats_spec (F := float) (map snd (partition data p)))
    as (Hsorted & Hkeys & Hcount & Hpdf & Hcdf & _).
  cbn zeta. repeat split; try done.
  - rewrite rendered_artists. unfold artist_for. by rewrite Hmode.
  - by apply Hkeys.
  - by apply Hkeys.
  - intros j Hj. rewrite Hcdf. by apply cumsum_lookup.
  - by apply rendered_cdf_ticks.
  - apply List.Forall_forall. intros t _. apply format_percent_writes.
Qed.

(** ** Binary64 arithmetic

    The kernel's floats are specified by [SpecFloat]: [Prim2SF] gives the
    sign, mantissa and exponent of a number, and every operation is the
    rounding algorithm of IEEE 754 run on those.  The lemmas below follow
    that algorithm through the two operations [plot_cdf] uses on floats, a
    division of two converted integers and an addition of two positive
    numbers.  Values are compared as integers, in units of 2^-1074. *)

(** *** Number of digits *)

Lemma digits2_bounds p :
  2 ^ (Zpos (digits2_pos p) - 1) <= Zpos p < 2 ^ Zpos (digits2_pos p).
Proof.
  induction p as [p IH|p IH|]; cbn [digits2_pos]; [| |cbn; lia].
  all: rewrite Pos2Z.inj_succ.
  all: replace (Z.succ (Zpos (digits2_pos p)) - 1) with (Z.succ (Zpos (digits2_pos p) - 1)) by lia.
  all: rewrite !Z.pow_succ_r by lia; lia.
Qed.

Lemma Zdigits2_bounds v :
  0 < v -> 2 ^ (Zdigits2 v - 1) <= v < 2 ^ Zdigits2 v.
Proof. destruct v as [|p|p]; [lia| |lia]. intros _. apply digits2_bounds. Qed.

Lemma Zdigits2_pos v : 0 < v -> 0 < Zdigits2 v.
Proof. destruct v; cbn; lia. Qed.

Lemma Zdigits2_unique v d :
  2 ^ (d - 1) <= v < 2 ^ d -> 0 < d -> Zdigits2 v = d.
Proof.
  intros [Hlo Hhi] Hd.
  assert (0 < v) as Hv by (pose proof (Z.pow_pos_nonneg 2 (d - 1)); lia).
  pose proof (Zdigits2_bounds v Hv) as [Hlo' Hhi'].
  pose proof (Zdigits2_pos v Hv) as Hpos.
  assert (d - 1 < Zdigits2 v).
  { apply (Z.pow_lt_mono_r_iff 2); lia. }
  assert (Zdigits2 v - 1 < d).
  { apply (Z.pow_lt_mono_r_iff 2); lia. }
  lia.
Qed.

Lemma Zdigits2_mono v w : 0 < v <= w -> Zdigits2 v <= Zdigits2 w.
Proof.
  intros [Hv Hw].
  pose proof (Zdigits2_bounds v Hv) as [Hlo _].
  pose proof (Zdigits2_bounds w ltac:(lia)) as [_ Hhi].
  pose proof (Zdigits2_pos w ltac:(lia)).
  assert (Zdigits2 v - 1 < Zdigits2 w); [|lia].
  apply (Z.pow_lt_mono_r_iff 2); lia.
Qed.

Lemma Zdigits2_shift v k :
  0 < v -> 0 <= k -> Zdigits2 (v * 2 ^ k) = Zdigits2 v + k.
Proof.
  intros Hv Hk.
  pose proof (Zdigits2_bounds v Hv) as [Hlo Hhi].
  pose proof (Zdigits2_pos v Hv).
  pose proof (Z.pow_pos_nonneg 2 k ltac:(lia) Hk).
  apply Zdigits2_unique; [|lia].
  replace (Zdigits2 v + k - 1) with (Zdigits2 v - 1 + k) by lia.
  rewrite !Z.pow_add_r by lia. nia.
Qed.

(** *** Shifting right *)

Lemma shr_1_m mrs : 0 <= shr_m mrs -> shr_m (shr_1 mrs) = shr_m mrs / 2.
Proof.
  destruct mrs as [m r s]. cbn [shr_m]. intros Hm.
  destruct m as [|[p|p|]|p]; cbn [shr_1 shr_m]; [done| | |done|lia].
  - apply (Z.div_unique _ _ _ 1); lia.
  - apply (Z.div_unique _ _ _ 0); lia.
Qed.

Lemma iter_shr_1_m p mrs :
  0 <= shr_m mrs ->
  shr_m (SpecFloat.iter_pos shr_1 p mrs) = shr_m mrs / 2 ^ Zpos p.
Proof.
  revert mrs. induction p as [p IH|p IH|]; intros mrs Hm; cbn [SpecFloat.iter_pos].
  - assert (0 <= shr_m (shr_1 mrs)).
    { rewrite shr_1_m by done. apply Z.div_pos; lia. }
    assert (0 <= shr_m (SpecFloat.iter_pos shr_1 p (shr_1 mrs))).
    { rewrite IH by done. apply Z.div_pos; [done|]. apply Z.pow_pos_nonneg; lia. }
    rewrite !IH, shr_1_m by done.
    rewrite !Z.div_div by (try apply Z.pow_pos_nonneg; lia).
    f_equal. replace (Zpos p~1) with (1 + Zpos p + Zpos p) by lia.
    rewrite Z.pow_add_r; [|lia|lia]. rewrite Z.pow_add_r; [|lia|lia]. lia.
  - assert (0 <= shr_m (SpecFloat.iter_pos shr_1 p mrs)).
    { rewrite IH by done. apply Z.div_pos; [done|]. apply Z.pow_pos_nonneg; lia. }
    rewrite !IH by done.
    rewrite !Z.div_div by (try apply Z.pow_pos_nonneg; lia).
    f_equal. replace (Zpos p~0) with (Zpos p + Zpos p) by lia.
    rewrite Z.pow_add_r; [|lia|lia]. lia.
  - by rewrite shr_1_m.
Qed.

Lemma shr_spec mrs e n :
  0 <= shr_m mrs -> 0 <= n ->
  shr_m (fst (shr mrs e n)) = shr_m mrs / 2 ^ n /\ snd (shr mrs e n) = e + n.
Proof.
  intros Hm Hn. destruct n as [|p|p]; [| |lia]; cbn [shr fst snd].
  - rewrite Z.div_1_r. lia.
  - by rewrite iter_shr_1_m.
Qed.

Lemma shr_none mrs e n : n <= 0 -> shr mrs e n = (mrs, e).
Proof. destruct n; [done|lia|done]. Qed.

Lemma shr_m_of_loc m l : shr_m (shr_record_of_loc m l) = m.
Proof. by destruct l as [|[]]. Qed.

Lemma round_nearest_even_bounds m l :
  m <= round_nearest_even m l <= m + 1.
Proof.
  destruct l as [|[]]; cbn [round_nearest_even]; try lia.
  destruct (Z.even m); lia.
Qed.

(** What [binary_round_aux] returns on a positive mantissa that needs no
    shift to the left. *)
Lemma binary_round_aux_spec m e l :
  0 < m ->
  let n := fexp 53 1024 (Zdigits2 m + e) - e in
  0 <= n ->
  exists m1,
    m / 2 ^ n <= m1 <= m / 2 ^ n + 1 /\
    (l = loc_Exact -> n = 0 -> m1 = m) /\
    binary_round_aux 53 1024 false m e l = rounded m1 (e + n).
Proof.
  intros Hm n Hn.
  unfold binary_round_aux, shr_fexp. fold n.
  pose proof (shr_spec (shr_record_of_loc m l) e n) as Hshr.
  rewrite shr_m_of_loc in Hshr. destruct Hshr as [Hm0 He']; [lia|done|].
  destruct (shr (shr_record_of_loc m l) e n) as [mrs' e'] eqn:Hfirst.
  cbn [fst snd] in Hm0, He'. subst e'.
  set (m1 := round_nearest_even (shr_m mrs') (loc_of_shr_record mrs')).
  pose proof (round_nearest_even_bounds (shr_m mrs') (loc_of_shr_record mrs'))
    as Hm1. fold m1 in Hm1. rewrite Hm0 in Hm1.
  exists m1. split; [done|]. split.
  { intros -> Hn0. subst m1. rewrite Hn0 in Hfirst. cbn in Hfirst.
    injection Hfirst as <- _. done. }
  (* the rounded mantissa has at most 54 digits *)
  assert (0 <= m / 2 ^ n < 2 ^ 53) as Hm0b.
  { pose proof (Zdigits2_bounds m Hm) as [_ Hhi].
    assert (0 < 2 ^ n) by (apply Z.pow_pos_nonneg; lia).
    split; [apply Z.div_pos; lia|].
    apply Z.div_lt_upper_bound; [done|].
    eapply Z.lt_le_trans; [exact Hhi|].
    rewrite <- Z.pow_add_r by lia.
    apply Z.pow_le_mono_r; [lia|]. unfold n, fexp. lia. }
  assert (-1074 <= e + n) as He.
  { unfold n, fexp, emin. lia. }
  destruct (Z.eq_dec m1 0) as [Hz|Hnz].
  { rewrite Hz. cbn [Zdigits2]. rewrite shr_none by (unfold fexp, emin; lia).
    done. }
  destruct (Z.eq_dec m1 (2 ^ 53)) as [Hc|Hnc].
  { rewrite Hc.
    assert (Zdigits2 (2 ^ 53) = 54) as -> by (vm_compute; reflexivity).
    replace (fexp 53 1024 (54 + (e + n)) - (e + n)) with 1
      by (unfold fexp, emin; lia).
    cbn [shr shr_record_of_loc SpecFloat.iter_pos].
    change (shr_m (shr_1 _)) with (Zpos 4503599627370496).
    change (rounded (2 ^ 53) (e + n))
      with (if e + n + 1 <=? 971
            then S754_finite false 4503599627370496 (e + n + 1)
            else S754_infinity false).
    done. }
  assert (0 < m1 < 2 ^ 53) as Hb by lia.
  pose proof (Zdigits2_bounds m1 ltac:(lia)) as [Hlo _].
  assert (Zdigits2 m1 <= 53) as Hd.
  { assert (Zdigits2 m1 - 1 < 53); [|lia].
    apply (Z.pow_lt_mono_r_iff 2); lia. }
  rewrite shr_none by (unfold fexp, emin; lia).
  cbn [shr_m shr_record_of_loc]. unfold rounded.
  destruct m1 as [|p|p]; [lia| |lia].
  destruct (Z.ltb_spec (Zpos p) (2 ^ 53)); [done|lia].
Qed.

(** *** Rounding a scaled value *)

Lemma iter_xO m d : Zpos (Pos.iter xO m d) = Zpos m * 2 ^ Zpos d.
Proof.
  induction d as [|d IH] using Pos.peano_ind.
  - cbn. lia.
  - rewrite Pos.iter_succ, Pos2Z.inj_succ, Z.pow_succ_r by lia.
    change (Zpos (Pos.iter xO m d)~0) with (2 * Zpos (Pos.iter xO m d)).
    rewrite IH. lia.
Qed.

Lemma scaled_pos m e : -1074 <= e -> 0 < scaled m e.
Proof.
  intros He. unfold scaled.
  pose proof (Z.pow_pos_nonneg 2 (e + 1074)). lia.
Qed.

Lemma Zdigits2_scaled m e :
  -1074 <= e -> Zdigits2 (scaled m e) = Zpos (digits2_pos m) + e + 1074.
Proof.
  intros He. unfold scaled. rewrite Zdigits2_shift by lia. cbn [Zdigits2]. lia.
Qed.

Lemma ulp_exp_scaled m e :
  -1074 <= e ->
  ulp_exp (scaled m e) = fexp 53 1024 (Zpos (digits2_pos m) + e) + 1074.
Proof.
  intros He. unfold ulp_exp. rewrite Zdigits2_scaled by done.
  unfold fexp, emin. lia.
Qed.

Lemma binary_round_spec m e :
  -1074 <= e ->
  let v := scaled m e in
  let k := ulp_exp v in
  exists m1,
    v / 2 ^ k <= m1 <= v / 2 ^ k + 1 /\
    (k <= e + 1074 -> m1 = v / 2 ^ k) /\
    binary_round 53 1024 false m e = rounded m1 (k - 1074).
Proof.
  intros He v k.
  assert (k = fexp 53 1024 (Zpos (digits2_pos m) + e) + 1074) as Hk
    by apply (ulp_exp_scaled m e He).
  set (f := fexp 53 1024 (Zpos (digits2_pos m) + e)) in *.
  assert (-1074 <= f) as Hf by (unfold f, fexp, emin; lia).
  unfold binary_round, shl_align. fold f.
  destruct (f - e) as [|d|d] eqn:Hd.
  - (* already aligned *)
    assert (f = e) as Hfe by lia.
    destruct (binary_round_aux_spec (Zpos m) e loc_Exact) as (m1 & Hm1 & Hex & ->).
    { lia. } { cbn [Zdigits2]. fold f. lia. }
    cbn [Zdigits2] in *. fold f in Hm1, Hex |- *.
    replace (f - e) with 0 in * by lia.
    rewrite Z.pow_0_r, Z.div_1_r in Hm1.
    assert (v / 2 ^ k = Zpos m) as Hv.
    { unfold v, scaled. replace (e + 1074) with k by lia.
      apply Z.div_mul. pose proof (Z.pow_pos_nonneg 2 k). lia. }
    exists m1. rewrite Hv. split; [lia|]. split; [intros _; by apply Hex|].
    f_equal. lia.
  - (* shifted right by [d] *)
    assert (f = e + Zpos d) as Hfe by lia.
    destruct (binary_round_aux_spec (Zpos m) e loc_Exact) as (m1 & Hm1 & _ & ->).
    { lia. } { cbn [Zdigits2]. fold f. lia. }
    cbn [Zdigits2] in *. fold f in Hm1 |- *. rewrite Hd in *.
    assert (v / 2 ^ k = Zpos m / 2 ^ Zpos d) as Hv.
    { unfold v, scaled. replace k with (Zpos d + (e + 1074)) by lia.
      rewrite (Z.pow_add_r 2 (Zpos d)) by lia.
      apply Z.div_mul_cancel_r; apply Z.pow_nonzero; lia. }
    exists m1. rewrite Hv. split; [lia|]. split; [lia|]. f_equal. lia.
  - (* shifted left by [d] *)
    assert (e = f + Zpos d) as Hfe by lia.
    destruct (binary_round_aux_spec (Zpos (Pos.iter xO m d)) f loc_Exact)
      as (m1 & Hm1 & Hex & ->).
    { lia. }
    { rewrite iter_xO, Zdigits2_shift by lia. cbn [Zdigits2].
      replace (Zpos (digits2_pos m) + Zpos d + f)
        with (Zpos (digits2_pos m) + e) by lia.
      fold f. lia. }
    assert (fexp 53 1024 (Zdigits2 (Zpos (Pos.iter xO m d)) + f) - f = 0) as Hn.
    { rewrite iter_xO, Zdigits2_shift by lia. cbn [Zdigits2].
      replace (Zpos (digits2_pos m) + Zpos d + f)
        with (Zpos (digits2_pos m) + e) by lia.
      fold f. lia. }
    rewrite Hn in *. rewrite Z.pow_0_r, Z.div_1_r in Hm1.
    assert (v / 2 ^ k = Zpos (Pos.iter xO m d)) as Hv.
    { rewrite iter_xO. unfold v, scaled.
      replace (e + 1074) with (Zpos d + k) by lia.
      rewrite (Z.pow_add_r 2 (Zpos d)), Z.mul_assoc by lia.
      apply Z.div_mul. apply Z.pow_nonzero; lia. }
    exists m1. rewrite Hv. split; [lia|]. split; [intros _; by apply Hex|].
    f_equal. lia.
Qed.

(** *** Comparing valid numbers *)

Lemma bounded_spec m e :
  bounded 53 1024 m e = true ->
  fexp 53 1024 (Zpos (digits2_pos m) + e) = e /\ e <= 971.
Proof.
  unfold bounded, canonical_mantissa.
  intros [H1 H2]%andb_prop. split; lia.
Qed.

Lemma bounded_emin m e : bounded 53 1024 m e = true -> -1074 <= e.
Proof.
  intros [H _]%bounded_spec. unfold fexp, emin in H. lia.
Qed.

Lemma scaled_lt mx ex my ey :
  bounded 53 1024 mx ex = true -> bounded 53 1024 my ey = true ->
  ex < ey -> scaled mx ex < scaled my ey.
Proof.
  intros Hx Hy Hlt.
  pose proof (bounded_emin _ _ Hx). pose proof (bounded_emin _ _ Hy).
  apply bounded_spec in Hx as [Hx _]. apply bounded_spec in Hy as [Hy _].
  pose proof (digits2_bounds mx) as [_ Hhi].
  pose proof (digits2_bounds my) as [Hlo _].
  set (dx := Zpos (digits2_pos mx)) in *. set (dy := Zpos (digits2_pos my)) in *.
  assert (0 < dx) by done. assert (0 < dy) by done.
  assert (dx + ex < dy + ey) by (unfold fexp, emin in *; lia).
  unfold scaled.
  assert (0 < 2 ^ (ex + 1074)) by (apply Z.pow_pos_nonneg; lia).
  assert (0 < 2 ^ (ey + 1074)) by (apply Z.pow_pos_nonneg; lia).
  apply Z.lt_le_trans with (2 ^ dx * 2 ^ (ex + 1074)); [nia|].
  apply Z.le_trans with (2 ^ (dy - 1) * 2 ^ (ey + 1074)); [|nia].
  rewrite <- !Z.pow_add_r by lia. apply Z.pow_le_mono_r; lia.
Qed.

Lemma SFcompare_scaled mx ex my ey :
  bounded 53 1024 mx ex = true -> bounded 53 1024 my ey = true ->
  SFcompare (S754_finite false mx ex) (S754_finite false my ey)
  = Some (scaled mx ex ?= scaled my ey).
Proof.
  intros Hx Hy. cbn [SFcompare]. f_equal.
  destruct (Z.compare_spec ex ey) as [->|Hlt|Hgt].
  - pose proof (bounded_emin _ _ Hy).
    unfold scaled. rewrite <- Zmult_compare_compat_r
      by (apply Z.lt_gt, Z.pow_pos_nonneg; lia).
    done.
  - symmetry. apply Z.compare_lt_iff. by apply scaled_lt.
  - symmetry. apply Z.compare_gt_iff. by apply scaled_lt.
Qed.

(** The largest multiple of the unit in the last place below a value is
    above every number of the format below that value. *)
Lemma round_down_ge x v :
  0 < x <= v ->
  x mod 2 ^ ulp_exp x = 0 ->
  x <= v / 2 ^ ulp_exp v * 2 ^ ulp_exp v.
Proof.
  intros [Hx Hxv] Hfmt.
  pose proof (Zdigits2_mono x v ltac:(lia)) as Hd.
  pose proof (Zdigits2_bounds x Hx) as [_ Hxhi].
  pose proof (Zdigits2_bounds v ltac:(lia)) as [Hvlo _].
  pose proof (Zdigits2_pos x Hx). pose proof (Zdigits2_pos v ltac:(lia)).
  unfold ulp_exp in *.
  set (dx := Zdigits2 x) in *. set (dv := Zdigits2 v) in *.
  set (kv := Z.max (dv - 53) 0). set (kx := Z.max (dx - 53) 0) in *.
  assert (0 < 2 ^ kv) by (apply Z.pow_pos_nonneg; lia).
  destruct (Z.eq_dec kx kv) as [Heq|Hne].
  - apply Z.mod_divide in Hfmt as [c Hc]; [|apply Z.pow_nonzero; lia].
    rewrite Heq in Hc. subst x.
    apply Z.mul_le_mono_nonneg_r; [lia|].
    apply Z.div_le_lower_bound; [done|]. lia.
  - assert (dx <= dv - 1) by lia.
    assert (kv = dv - 53) as Hkv by lia.
    apply Z.le_trans with (2 ^ (dv - 1)).
    { apply Z.lt_le_incl. eapply Z.lt_le_trans; [exact Hxhi|].
      apply Z.pow_le_mono_r; lia. }
    replace (dv - 1) with (dv - 1 - kv + kv) at 1 by lia.
    rewrite Z.pow_add_r by lia.
    apply Z.mul_le_mono_nonneg_r; [lia|].
    apply Z.div_le_lower_bound; [done|].
    rewrite <- Z.pow_add_r by lia.
    replace (kv + (dv - 1 - kv)) with (dv - 1) by lia. done.
Qed.

Lemma scaled_in_format m e :
  bounded 53 1024 m e = true ->
  scaled m e mod 2 ^ ulp_exp (scaled m e) = 0.
Proof.
  intros Hb. pose proof (bounded_emin _ _ Hb) as He.
  apply bounded_spec in Hb as [Hb _].
  rewrite ulp_exp_scaled, Hb by done. unfold scaled.
  apply Z.mod_mul. apply Z.pow_nonzero; lia.
Qed.

(** *** Adding positive numbers *)

Lemma div_ulp_bounds v :
  0 < v -> 0 <= v / 2 ^ ulp_exp v < 2 ^ 53.
Proof.
  intros Hv. pose proof (Zdigits2_bounds v Hv) as [_ Hhi].
  pose proof (Zdigits2_pos v Hv).
  assert (0 <= ulp_exp v) by (unfold ulp_exp; lia).
  assert (0 < 2 ^ ulp_exp v) by (apply Z.pow_pos_nonneg; lia).
  split; [apply Z.div_pos; lia|].
  apply Z.div_lt_upper_bound; [done|].
  eapply Z.lt_le_trans; [exact Hhi|].
  rewrite <- Z.pow_add_r by lia.
  apply Z.pow_le_mono_r; [lia|]. unfold ulp_exp. lia.
Qed.

Lemma rounded_positive m1 e :
  0 < m1 <= 2 ^ 53 -> -1074 <= e ->
  rounded m1 e = S754_infinity false \/
  exists m' e', rounded m1 e = S754_finite false m' e' /\
                scaled m' e' = m1 * 2 ^ (e + 1074).
Proof.
  intros Hm He. unfold rounded. destruct m1 as [|p|p]; [lia| |lia].
  destruct (Z.ltb_spec (Zpos p) (2 ^ 53)).
  - destruct (e <=? 971); [right|by left].
    by exists p, e.
  - destruct (e + 1 <=? 971); [right|by left].
    exists 4503599627370496%positive, (e + 1). split; [done|].
    unfold scaled. replace (Zpos p) with (2 ^ 53) by lia.
    replace (e + 1 + 1074) with (1 + (e + 1074)) by lia.
    rewrite (Z.pow_add_r 2 1) by lia.
    change (Zpos 4503599627370496) with (2 ^ 52).
    change (2 ^ 53) with (2 ^ 52 * 2 ^ 1). lia.
Qed.

Lemma shl_align_scaled m e e' :
  e' <= e -> -1074 <= e' ->
  Zpos (fst (shl_align m e e')) * 2 ^ (e' + 1074) = scaled m e.
Proof.
  intros Hle He'. unfold shl_align, scaled.
  destruct (e' - e) as [|d|d] eqn:Hd; cbn [fst]; [| lia |].
  - by replace e' with e by lia.
  - rewrite iter_xO. replace (e + 1074) with (Zpos d + (e' + 1074)) by lia.
    rewrite (Z.pow_add_r 2 (Zpos d)) by lia. lia.
Qed.

Lemma SFadd_finite mx ex my ey :
  bounded 53 1024 mx ex = true -> bounded 53 1024 my ey = true ->
  let v := scaled mx ex + scaled my ey in
  exists m1,
    v / 2 ^ ulp_exp v <= m1 <= v / 2 ^ ulp_exp v + 1 /\
    (ulp_exp v = 0 -> m1 = v) /\
    SF64add (S754_finite false mx ex) (S754_finite false my ey)
    = rounded m1 (ulp_exp v - 1074).
Proof.
  intros Hx Hy v.
  pose proof (bounded_emin _ _ Hx). pose proof (bounded_emin _ _ Hy).
  unfold SF64add, SFadd. cbn [cond_Zopp].
  set (ez := Z.min ex ey).
  set (ax := fst (shl_align mx ex ez)). set (ay := fst (shl_align my ey ez)).
  change (Zpos ax + Zpos ay) with (Zpos (ax + ay)). cbn [binary_normalize].
  assert (scaled (ax + ay) ez = v) as Hv.
  { unfold v. rewrite <- (shl_align_scaled mx ex ez), <- (shl_align_scaled my ey ez)
      by (unfold ez; lia).
    fold ax ay. unfold scaled. lia. }
  destruct (binary_round_spec (ax + ay) ez) as (m1 & Hm1 & Hex & Hr).
  { unfold ez. lia. }
  rewrite Hv in *. exists m1. split; [done|]. split; [|done].
  intros Hk. rewrite Hk, Z.pow_0_r, Z.div_1_r in Hex. apply Hex.
  unfold ez. lia.
Qed.

Lemma valid_finite x s m e :
  Prim2SF x = S754_finite s m e -> bounded 53 1024 m e = true.
Proof.
  intros Hx. pose proof (Prim2SF_valid x) as Hv. by rewrite Hx in Hv.
Qed.

(** *** int64 to float64, below 2^53 *)

Lemma from_int_spec a :
  0 < a < 2 ^ 53 ->
  exists m e,
    Prim2SF (Float64.from_int a) = S754_finite false m e /\
    scaled m e = a * 2 ^ 1074 /\
    Zpos (digits2_pos m) = 53 /\ -52 <= e <= 0.
Proof.
  intros Ha. unfold Float64.from_int.
  destruct (Z.ltb_spec a 0); [lia|].
  rewrite of_uint63_spec, Uint63.of_Z_spec.
  rewrite Z.mod_small by (change wB with (2 ^ 63); change (2 ^ 53) with 9007199254740992 in Ha; change (2 ^ 63) with 9223372036854775808; lia).
  destruct a as [|p|p]; [lia| |lia]. cbn [binary_normalize].
  destruct (binary_round_spec p 0) as (m1 & _ & Hex & Hr); [lia|].
  change (binary_round prec emax false p 0) with (binary_round 53 1024 false p 0).
  rewrite Hr. clear Hr.
  pose proof (digits2_bounds p) as [Hlo Hhi].
  set (d := Zpos (digits2_pos p)) in *.
  assert (0 < d <= 53) as Hd.
  { split; [done|]. assert (d - 1 < 53); [|lia].
    apply (Z.pow_lt_mono_r_iff 2); lia. }
  assert (ulp_exp (scaled p 0) = d + 1021) as Hk.
  { rewrite ulp_exp_scaled by lia. fold d. unfold fexp, emin. lia. }
  rewrite Hk in *.
  assert (scaled p 0 = Zpos p * 2 ^ (53 - d) * 2 ^ (d + 1021)) as Hv.
  { unfold scaled. rewrite <- Z.mul_assoc, <- Z.pow_add_r by lia.
    do 2 f_equal. lia. }
  assert (0 < 2 ^ (53 - d)) by (apply Z.pow_pos_nonneg; lia).
  assert (m1 = Zpos p * 2 ^ (53 - d)) as ->.
  { rewrite Hex by lia. rewrite Hv. apply Z.div_mul. apply Z.pow_nonzero; lia. }
  assert (2 ^ 52 <= Zpos p * 2 ^ (53 - d) < 2 ^ 53) as Hm.
  { assert (2 ^ 52 = 2 ^ (d - 1) * 2 ^ (53 - d)) as ->
      by (rewrite <- Z.pow_add_r by lia; f_equal; lia).
    assert (2 ^ 53 = 2 ^ d * 2 ^ (53 - d)) as ->
      by (rewrite <- Z.pow_add_r by lia; f_equal; lia).
    nia. }
  unfold rounded.
  destruct (Zpos p * 2 ^ (53 - d)) as [|q|q] eqn:Hq; [lia| |lia].
  destruct (Z.ltb_spec (Zpos q) (2 ^ 53)); [|lia].
  destruct (Z.leb_spec (d + 1021 - 1074) 971); [|lia].
  exists q, (d + 1021 - 1074). split; [done|]. split; [|split; [|lia]].
  - unfold scaled in *.
    replace (d + 1021 - 1074 + 1074) with (d + 1021) by lia.
    rewrite <- Hv. do 2 f_equal. 
  - change (Zpos (digits2_pos q)) with (Zdigits2 (Zpos q)).
    apply Zdigits2_unique; [|lia]. change (53 - 1) with 52. lia.
Qed.

(** *** Dividing two converted integers *)

Lemma SFdiv_finite mx ex my ey :
  Zpos (digits2_pos mx) = 53 -> Zpos (digits2_pos my) = 53 ->
  -52 <= ex <= 0 -> -52 <= ey <= 0 ->
  exists m e,
    SF64div (S754_finite false mx ex) (S754_finite false my ey)
    = S754_finite false m e /\
    (2 ^ 52 - 1) * (scaled mx ex * 2 ^ 1074)
      <= 2 ^ 52 * (scaled m e * scaled my ey)
      <= (2 ^ 52 + 1) * (scaled mx ex * 2 ^ 1074).
Proof.
  intros Hdx Hdy Hex Hey.
  pose proof (digits2_bounds mx) as Hmx. pose proof (digits2_bounds my) as Hmy.
  rewrite Hdx in Hmx. rewrite Hdy in Hmy. change (53 - 1) with 52 in *.
  unfold SF64div, SFdiv, SFdiv_core_binary. cbn [Zdigits2 xorb].
  change prec with 53. change emax with 1024.
  rewrite Hdx, Hdy.
  set (e0 := ex - ey - 53).
  assert (Z.min (fexp 53 1024 (53 + ex - (53 + ey))) (ex - ey) = e0) as ->
    by (unfold fexp, emin, e0; lia).
  replace (ex - ey - e0) with 53 by (unfold e0; lia).
  rewrite Z.shiftl_mul_pow2 by lia.
  pose proof (Z.div_mod (Zpos mx * 2 ^ 53) (Zpos my) ltac:(lia)) as Hdiv.
  pose proof (Z.mod_pos_bound (Zpos mx * 2 ^ 53) (Zpos my) ltac:(lia)) as Hmod.
  unfold Z.div, Z.modulo in Hdiv, Hmod.
  destruct (Z.div_eucl (Zpos mx * 2 ^ 53) (Zpos my)) as [q r].
  assert (2 ^ 52 <= q < 2 ^ 54) as Hq.
  { change (2 ^ 54) with (2 * 2 ^ 53). change (2 ^ 53) with (2 * 2 ^ 52) in *. nia. }
  set (n := Zdigits2 q - 53).
  assert (0 <= n <= 1) as Hn.
  { pose proof (Zdigits2_bounds q ltac:(lia)) as [Hlo Hhi].
    pose proof (Zdigits2_pos q ltac:(lia)).
    assert (52 < Zdigits2 q) by (apply (Z.pow_lt_mono_r_iff 2); lia).
    assert (Zdigits2 q - 1 < 54); [|unfold n; lia].
    apply (Z.pow_lt_mono_r_iff 2); lia. }
  destruct (binary_round_aux_spec q e0 (new_location (Zpos my) r))
    as (m1 & Hm1 & _ & ->).
  { lia. } { unfold fexp, emin, e0; lia. }
  replace (fexp 53 1024 (Zdigits2 q + e0) - e0) with n in *
    by (unfold fexp, emin, e0, n; lia).
  assert (0 < 2 ^ n) by (apply Z.pow_pos_nonneg; lia).
  pose proof (Z.div_mod q (2 ^ n) ltac:(lia)) as Hq0.
  pose proof (Z.mod_pos_bound q (2 ^ n) ltac:(lia)) as Hq1.
  set (m0 := q / 2 ^ n) in *.
  assert (2 ^ 52 <= m0 < 2 ^ 53) as Hm0.
  { assert (n = 0 \/ n = 1) as [Hn0|Hn1] by lia.
    - rewrite Hn0 in *. change (2 ^ 0) with 1 in *.
      assert (Zdigits2 q = 53) as Hd by (unfold n in Hn0; lia).
      pose proof (Zdigits2_bounds q ltac:(lia)) as Hb. rewrite Hd in Hb. lia.
    - rewrite Hn1 in *. change (2 ^ 1) with 2 in *.
      assert (Zdigits2 q = 54) as Hd by (unfold n in Hn1; lia).
      pose proof (Zdigits2_bounds q ltac:(lia)) as Hb. rewrite Hd in Hb.
      change (2 ^ (54 - 1)) with (2 * 2 ^ 52) in Hb.
      change (2 ^ 54) with (2 * 2 ^ 53) in Hb. lia. }
  destruct (rounded_positive m1 (e0 + n)) as [Hinf|(m & e & Hfin & Hs)].
  { lia. } { unfold e0. lia. }
  { exfalso. unfold rounded in Hinf. destruct m1 as [|p|p]; [lia| |lia].
    destruct (Zpos p <? 2 ^ 53).
    - destruct (Z.leb_spec (e0 + n) 971); [done|unfold e0 in *; lia].
    - destruct (Z.leb_spec (e0 + n + 1) 971); [done|unfold e0 in *; lia]. }
  exists m, e. split; [done|]. rewrite Hs. unfold scaled.
  set (P0 := 2 ^ (ex - 53 + 2148)).
  assert (0 < P0) by (apply Z.pow_pos_nonneg; lia).
  assert (2 ^ (e0 + n + 1074) * 2 ^ (ey + 1074) = 2 ^ n * P0) as HP.
  { unfold P0. rewrite <- !Z.pow_add_r by (unfold e0; lia).
    f_equal. unfold e0. lia. }
  assert (2 ^ (ex + 1074) * 2 ^ 1074 = 2 ^ 53 * P0) as HX.
  { unfold P0. rewrite <- !Z.pow_add_r by lia. f_equal. lia. }
  set (A := Zpos mx * 2 ^ 53) in *. set (B := 2 ^ n * Zpos my).
  assert (m1 * 2 ^ (e0 + n + 1074) * (Zpos my * 2 ^ (ey + 1074)) = m1 * B * P0)
    as ->.
  { transitivity (m1 * Zpos my * (2 ^ (e0 + n + 1074) * 2 ^ (ey + 1074)));
      [ring|]. rewrite HP. unfold B. ring. }
  assert (Zpos mx * 2 ^ (ex + 1074) * 2 ^ 1074 = A * P0) as ->.
  { transitivity (Zpos mx * (2 ^ (ex + 1074) * 2 ^ 1074)); [ring|].
    rewrite HX. unfold A. ring. }
  assert (m0 * B <= A < (m0 + 1) * B) as HA by (unfold A, B; nia).
  assert (2 ^ 52 * B <= A) as HB by nia.
  assert (0 < B) by (unfold B; nia).
  split.
  - rewrite !Z.mul_assoc. apply Z.mul_le_mono_nonneg_r; [lia|]. nia.
  - rewrite !Z.mul_assoc. apply Z.mul_le_mono_nonneg_r; [lia|]. nia.
Qed.

(** *** The error of an addition *)

Lemma SFadd_error mx ex my ey :
  bounded 53 1024 mx ex = true -> bounded 53 1024 my ey = true ->
  let v := scaled mx ex + scaled my ey in
  v < 2 ^ 2097 ->
  exists m e,
    SF64add (S754_finite false mx ex) (S754_finite false my ey)
    = S754_finite false m e /\
    (2 ^ 52 - 1) * v <= 2 ^ 52 * scaled m e <= (2 ^ 52 + 1) * v.
Proof.
  intros Hx Hy v Hv.
  pose proof (bounded_emin _ _ Hx). pose proof (bounded_emin _ _ Hy).
  pose proof (scaled_pos mx ex ltac:(done)). pose proof (scaled_pos my ey ltac:(done)).
  destruct (SFadd_finite mx ex my ey Hx Hy) as (m1 & Hm1 & Hex & Hr).
  cbn zeta in *. fold v in Hm1, Hex, Hr. rewrite Hr. clear Hr.
  assert (0 < v) as Hv0 by (unfold v; lia).
  pose proof (Zdigits2_bounds v Hv0) as [Hlo Hhi].
  pose proof (Zdigits2_pos v Hv0) as Hd.
  pose proof (div_ulp_bounds v Hv0) as Hdiv.
  set (k := ulp_exp v) in *.
  assert (0 <= k) as Hk by (unfold k, ulp_exp; lia).
  assert (0 < 2 ^ k) by (apply Z.pow_pos_nonneg; lia).
  pose proof (Z.div_mod v (2 ^ k) ltac:(lia)) as Hdm.
  pose proof (Z.mod_pos_bound v (2 ^ k) ltac:(lia)) as Hmod.
  set (m0 := v / 2 ^ k) in *.
  assert (Zdigits2 v <= 2097) as Hdv.
  { assert (Zdigits2 v - 1 < 2097); [|lia].
    apply (Z.pow_lt_mono_r_iff 2); lia. }
  assert (k <= 2044) as Hk' by (unfold k, ulp_exp; lia).
  assert (0 < m1) as Hm1pos.
  { destruct (Z.eq_dec k 0) as [Hk0|Hk0]; [rewrite (Hex Hk0); lia|].
    assert (k = Zdigits2 v - 53) as Hkv by (unfold k, ulp_exp in *; lia).
    assert (2 ^ 52 * 2 ^ k <= v).
    { rewrite <- Z.pow_add_r by lia. eapply Z.le_trans; [|exact Hlo].
      apply Z.pow_le_mono_r; lia. }
    assert (2 ^ 52 <= m0) by (apply Z.div_le_lower_bound; lia).
    lia. }
  destruct (rounded_positive m1 (k - 1074)) as [Hinf|(m & e & Hfin & Hs)];
    [lia|lia|..].
  { exfalso. unfold rounded in Hinf. destruct m1 as [|q|q]; [lia| |lia].
    destruct (Zpos q <? 2 ^ 53).
    - destruct (Z.leb_spec (k - 1074) 971); [done|lia].
    - destruct (Z.leb_spec (k - 1074 + 1) 971); [done|lia]. }
  exists m, e. split; [done|]. rewrite Hs.
  replace (k - 1074 + 1074) with k by lia.
  destruct (Z.eq_dec k 0) as [Hk0|Hk0].
  { rewrite (Hex Hk0), Hk0. change (2 ^ 0) with 1. lia. }
  assert (k = Zdigits2 v - 53) as Hkv by (unfold k, ulp_exp in *; lia).
  assert (2 ^ 52 * 2 ^ k <= v).
  { rewrite <- Z.pow_add_r by lia. eapply Z.le_trans; [|exact Hlo].
    apply Z.pow_le_mono_r; lia. }
  nia.
Qed.

(** ** Values and rounding errors *)

Lemma up_step (S f A X t u A' : Q) :
  (0 <= S -> 0 <= f -> 0 <= u -> u <= t -> 2 * t <= 1 ->
   A <= S * (1 + 2 * t) -> X <= f * (1 + u) -> A' <= (1 + u) * (A + X) ->
   A' <= (S + f) * (1 + 2 * (t + u)))%Q.
Proof.
  intros HS Hf Hu Hut Ht HA HX HA'.
  assert (0 <= S * (u * (1 - 2 * t)))%Q as H1.
  { apply Qmult_le_0_compat; [done|]. apply Qmult_le_0_compat; lra. }
  assert (0 <= f * (2 * t - u + u * (1 - u)))%Q as H2.
  { apply Qmult_le_0_compat; [done|].
    assert (0 <= u * (1 - u))%Q by (apply Qmult_le_0_compat; lra). lra. }
  assert ((1 + u) * (A + X) <= (1 + u) * (S * (1 + 2 * t) + f * (1 + u)))%Q as H3.
  { apply Qmult_le_l; lra. }
  lra.
Qed.

Lemma down_step (S f A X t u A' : Q) :
  (0 <= S -> 0 <= f -> 0 <= u -> u < 1 -> u <= t ->
   S * (1 - t) <= A -> f * (1 - u) <= X -> (1 - u) * (A + X) <= A' ->
   (S + f) * (1 - (t + u)) <= A')%Q.
Proof.
  intros HS Hf Hu Hu1 Hut HA HX HA'.
  assert (0 <= S * (u * t))%Q as H1.
  { apply Qmult_le_0_compat; [done|]. apply Qmult_le_0_compat; lra. }
  assert (0 <= f * (u * u + (t - u)))%Q as H2.
  { apply Qmult_le_0_compat; [done|].
    assert (0 <= u * u)%Q by (apply Qmult_le_0_compat; lra). lra. }
  assert ((1 - u) * (S * (1 - t) + f * (1 - u)) <= (1 - u) * (A + X))%Q as H3.
  { apply Qmult_le_l; lra. }
  lra.
Qed.

Lemma unit_pos : (0 < inject_Z (2 ^ 1074))%Q.
Proof.
  change 0%Q with (inject_Z 0). rewrite <- Zlt_Qlt.
  apply Z.pow_pos_nonneg; lia.
Qed.

(** A relative error of at most [eps], stated on scaled integers, read on
    the values. *)
Lemma relative_error (v r : Z) (qv q : Q) :
  (2 ^ 52 - 1) * v <= 2 ^ 52 * r <= (2 ^ 52 + 1) * v ->
  (qv == inject_Z v / inject_Z (2 ^ 1074))%Q ->
  (q == inject_Z r / inject_Z (2 ^ 1074))%Q ->
  ((1 - eps) * qv <= q <= (1 + eps) * qv)%Q.
Proof.
  intros [Hlo Hhi] Hqv Hq.
  pose proof unit_pos as Hunit.
  set (w := (/ inject_Z (2 ^ 1074))%Q).
  assert (0 < w)%Q as Hw by (by apply Qinv_lt_0_compat).
  unfold Qdiv in Hqv, Hq. fold w in Hqv, Hq.
  rewrite Zle_Qle in Hlo, Hhi.
  rewrite !inject_Z_mult in Hlo, Hhi.
  change (inject_Z (2 ^ 52 - 1)) with (4503599627370495 # 1)%Q in Hlo.
  change (inject_Z (2 ^ 52 + 1)) with (4503599627370497 # 1)%Q in Hhi.
  change (inject_Z (2 ^ 52)) with (4503599627370496 # 1)%Q in Hlo, Hhi.
  apply (Qmult_le_compat_r _ _ w) in Hlo, Hhi; [|lra..].
  rewrite Hqv, Hq. unfold eps.
  split; lra.
Qed.

Lemma Qdiv_le_cross (a b c d : Q) :
  (0 < b -> 0 < d -> a * d <= c * b -> a / b <= c / d)%Q.
Proof.
  intros Hb Hd H.
  apply Qle_shift_div_l; [done|].
  setoid_replace (a / b * d)%Q with (a * d / b)%Q using relation Qeq by (field; lra).
  by apply Qle_shift_div_r.
Qed.

Lemma add_value64 a x qa qx :
  value64 a qa -> value64 x qx -> (qa + qx <= 4)%Q ->
  exists q,
    value64 (a + x) q /\
    ((1 - eps) * (qa + qx) <= q <= (1 + eps) * (qa + qx))%Q.
Proof.
  intros (ma & ea & Ha & Hqa) (mx & ex & Hx & Hqx) Hsmall.
  pose proof (valid_finite _ _ _ _ Ha) as Hba.
  pose proof (valid_finite _ _ _ _ Hx) as Hbx.
  pose proof unit_pos as Hunit.
  assert (qa + qx == inject_Z (scaled ma ea + scaled mx ex) / inject_Z (2 ^ 1074))%Q
    as Hsum.
  { rewrite Hqa, Hqx, inject_Z_plus. field. lra. }
  assert (scaled ma ea + scaled mx ex < 2 ^ 2097) as Hv.
  { assert (scaled ma ea + scaled mx ex <= 4 * 2 ^ 1074); [|lia].
    rewrite Zle_Qle, inject_Z_mult.
    rewrite Hsum in Hsmall.
    apply (Qmult_le_r _ _ (/ inject_Z (2 ^ 1074))); [by apply Qinv_lt_0_compat|].
    change (inject_Z 4) with 4%Q.
    setoid_replace (4 * inject_Z (2 ^ 1074) * / inject_Z (2 ^ 1074))%Q with 4%Q
      using relation Qeq by (field; lra).
    done. }
  destruct (SFadd_error ma ea mx ex Hba Hbx Hv) as (m & e & Hr & Herr).
  exists (inject_Z (scaled m e) / inject_Z (2 ^ 1074))%Q. split.
  - exists m, e. split; [|done]. by rewrite add_spec, Ha, Hx.
  - eapply relative_error; [exact Herr|exact Hsum|done].
Qed.

Lemma truediv_value64 c n :
  0 < c -> c <= n -> n < 2 ^ 53 ->
  exists q,
    value64 (PrimFloat.div (Float64.from_int c) (Float64.from_int n)) q /\
    ((1 - eps) * (inject_Z c / inject_Z n) <= q
     <= (1 + eps) * (inject_Z c / inject_Z n))%Q.
Proof.
  intros Hc Hcn Hn.
  destruct (from_int_spec c ltac:(lia)) as (mc & ec & Hfc & Hsc & Hdc & Hec).
  destruct (from_int_spec n ltac:(lia)) as (mn & en & Hfn & Hsn & Hdn & Hen).
  destruct (SFdiv_finite mc ec mn en Hdc Hdn Hec Hen) as (m & e & Hdiv & Hlo & Hhi).
  rewrite Hsc, Hsn in Hlo, Hhi.
  set (r := scaled m e) in *.
  assert (0 < 2 ^ 1074) as HP by (apply Z.pow_pos_nonneg; lia).
  assert ((2 ^ 52 - 1) * (c * 2 ^ 1074) <= 2 ^ 52 * (r * n)) as Hlo'.
  { apply (Z.mul_le_mono_pos_r _ _ (2 ^ 1074)); [done|].
    etransitivity; [|etransitivity; [exact Hlo|]]; apply Z.eq_le_incl; ring. }
  assert (2 ^ 52 * (r * n) <= (2 ^ 52 + 1) * (c * 2 ^ 1074)) as Hhi'.
  { apply (Z.mul_le_mono_pos_r _ _ (2 ^ 1074)); [done|].
    etransitivity; [|etransitivity; [exact Hhi|]]; apply Z.eq_le_incl; ring. }
  clear Hlo Hhi.
  rewrite Zle_Qle in Hlo', Hhi'. rewrite !inject_Z_mult in Hlo', Hhi'.
  change (inject_Z (2 ^ 52 - 1)) with (4503599627370495 # 1)%Q in Hlo'.
  change (inject_Z (2 ^ 52 + 1)) with (4503599627370497 # 1)%Q in Hhi'.
  change (inject_Z (2 ^ 52)) with (4503599627370496 # 1)%Q in Hlo', Hhi'.
  pose proof unit_pos as Hunit.
  assert (0 < inject_Z n)%Q as Hn0.
  { change 0%Q with (inject_Z 0). rewrite <- Zlt_Qlt. lia. }
  exists (inject_Z r / inject_Z (2 ^ 1074))%Q. split.
  - exists m, e. split; [|done]. by rewrite div_spec, Hfc, Hfn.
  - split.
    + setoid_replace ((1 - eps) * (inject_Z c / inject_Z n))%Q
        with ((1 - eps) * inject_Z c / inject_Z n)%Q using relation Qeq by (field; lra).
      apply Qdiv_le_cross; [done|done|]. unfold eps. lra.
    + setoid_replace ((1 + eps) * (inject_Z c / inject_Z n))%Q
        with ((1 + eps) * inject_Z c / inject_Z n)%Q using relation Qeq by (field; lra).
      apply Qdiv_le_cross; [done|done|]. unfold eps. lra.
Qed.

(** ** Strict growth *)

Lemma succ_in_format m e :
  bounded 53 1024 m e = true ->
  let x := scaled m e + 2 ^ (e + 1074) in
  x mod 2 ^ ulp_exp x = 0.
Proof.
  intros Hb x. pose proof (bounded_emin _ _ Hb) as He.
  apply bounded_spec in Hb as [Hc _].
  pose proof (digits2_bounds m) as [Hlo Hhi].
  set (d := Zpos (digits2_pos m)) in *.
  assert (0 < d) by done.
  set (k := e + 1074) in *.
  assert (0 < 2 ^ k) by (apply Z.pow_pos_nonneg; lia).
  assert (x = (Zpos m + 1) * 2 ^ k) as Hx by (unfold x, scaled; fold k; lia).
  assert (d <= 53 /\ k = Z.max (d + k - 53) 0) as [Hd Hk]
    by (unfold fexp, emin, k in *; lia).
  destruct (Z.eq_dec (Zpos m + 1) (2 ^ d)) as [Hcarry|Hno].
  - assert (x = 2 ^ (d + k)) as Hpow.
    { rewrite Hx, Hcarry, Z.pow_add_r by lia. done. }
    assert (Zdigits2 x = d + k + 1) as Hdx.
    { apply Zdigits2_unique; [|lia]. rewrite Hpow.
      replace (d + k + 1 - 1) with (d + k) by lia. split; [lia|].
      apply Z.pow_lt_mono_r; lia. }
    unfold ulp_exp. rewrite Hdx, Hpow.
    set (j := Z.max (d + k + 1 - 53) 0).
    replace (d + k) with (d + k - j + j) by lia.
    rewrite Z.pow_add_r by lia. apply Z.mod_mul. apply Z.pow_nonzero; lia.
  - assert (Zdigits2 x = d + k) as Hdx.
    { rewrite Hx, Zdigits2_shift by lia. f_equal.
      apply Zdigits2_unique; lia. }
    unfold ulp_exp. rewrite Hdx, <- Hk, Hx.
    apply Z.mod_mul. apply Z.pow_nonzero; lia.
Qed.

Lemma add_strict a x ma ea mx ex :
  Prim2SF a = S754_finite false ma ea ->
  Prim2SF x = S754_finite false mx ex ->
  scaled ma ea < 2 ^ 1075 -> 2 ^ 1022 <= scaled mx ex ->
  (a <? a + x)%float = true.
Proof.
  intros Ha Hx Hsmall Hbig.
  pose proof (valid_finite _ _ _ _ Ha) as Hba.
  pose proof (valid_finite _ _ _ _ Hx) as Hbx.
  pose proof (bounded_emin _ _ Hba) as Hea.
  pose proof (scaled_pos ma ea Hea) as Hsa.
  pose proof (Prim2SF_valid (a + x)) as Hvalid.
  rewrite ltb_spec. rewrite add_spec, Ha, Hx in *.
  destruct (SFadd_finite ma ea mx ex Hba Hbx) as (m1 & Hm1 & _ & Hr).
  cbn zeta in *. set (v := scaled ma ea + scaled mx ex) in *.
  rewrite Hr in *. clear Hr.
  (* the next number of the format above [a] is at most the exact sum *)
  assert (ea + 1074 <= 1022) as Hka.
  { pose proof (Zdigits2_bounds _ Hsa) as [Hlo _].
    assert (Zdigits2 (scaled ma ea) - 1 < 1075)
      by (apply (Z.pow_lt_mono_r_iff 2); lia).
    pose proof (ulp_exp_scaled ma ea Hea) as Hu.
    apply bounded_spec in Hba as [Hc _]. rewrite Hc in Hu.
    unfold ulp_exp in Hu. lia. }
  assert (2 ^ (ea + 1074) <= 2 ^ 1022) by (apply Z.pow_le_mono_r; lia).
  assert (0 < 2 ^ (ea + 1074)) by (apply Z.pow_pos_nonneg; lia).
  pose proof (round_down_ge (scaled ma ea + 2 ^ (ea + 1074)) v ltac:(unfold v; lia)
                (succ_in_format _ _ Hba)) as Hdown.
  pose proof (div_ulp_bounds v ltac:(unfold v; lia)) as Hdiv.
  assert (0 <= ulp_exp v) by (unfold ulp_exp; lia).
  assert (0 < 2 ^ ulp_exp v) by (apply Z.pow_pos_nonneg; lia).
  assert (0 < v / 2 ^ ulp_exp v) by nia.
  destruct (rounded_positive m1 (ulp_exp v - 1074)) as [Hinf|(m' & e' & Hfin & Hs)];
    [lia|lia|..].
  - by rewrite Hinf.
  - rewrite Hfin in *. unfold SFltb. rewrite SFcompare_scaled by done.
    replace (ulp_exp v - 1074 + 1074) with (ulp_exp v) in Hs by lia.
    destruct (Z.compare_spec (scaled ma ea) (scaled m' e')); [nia|done|nia].
Qed.

Lemma ltb_value64_trans x y z qx qy qz :
  value64 x qx -> value64 y qy -> value64 z qz ->
  (x <? y)%float = true -> (y <? z)%float = true -> (x <? z)%float = true.
Proof.
  intros (mx & ex & Hx & _) (my & ey & Hy & _) (mz & ez & Hz & _).
  rewrite !ltb_spec, Hx, Hy, Hz.
  pose proof (valid_finite _ _ _ _ Hx). pose proof (valid_finite _ _ _ _ Hy).
  pose proof (valid_finite _ _ _ _ Hz).
  unfold SFltb. rewrite !SFcompare_scaled by done.
  destruct (Z.compare_spec (scaled mx ex) (scaled my ey)); try done;
    destruct (Z.compare_spec (scaled my ey) (scaled mz ez)); try done;
    destruct (Z.compare_spec (scaled mx ex) (scaled mz ez)); try done; lia.
Qed.

Lemma value_below_two (s : Z) (q : Q) :
  (q == inject_Z s / inject_Z (2 ^ 1074))%Q -> (q < 2)%Q -> s < 2 ^ 1075.
Proof.
  intros Hq Hlt. pose proof unit_pos as Hunit.
  change (2 ^ 1075) with (2 * 2 ^ 1074).
  rewrite Zlt_Qlt, inject_Z_mult. change (inject_Z 2) with 2%Q.
  rewrite Hq in Hlt.
  apply (Qmult_lt_r _ _ (inject_Z (2 ^ 1074))) in Hlt; [|done].
  assert (inject_Z s / inject_Z (2 ^ 1074) * inject_Z (2 ^ 1074) == inject_Z s)%Q
    as Heq by (field; lra).
  by rewrite Heq in Hlt.
Qed.

Lemma value_above_eps (s : Z) (q : Q) :
  (q == inject_Z s / inject_Z (2 ^ 1074))%Q -> (eps <= q)%Q -> 2 ^ 1022 <= s.
Proof.
  intros Hq Hle. pose proof unit_pos as Hunit.
  rewrite Zle_Qle. rewrite Hq in Hle.
  apply (Qmult_le_r _ _ (inject_Z (2 ^ 1074))) in Hle; [|done].
  assert (inject_Z s / inject_Z (2 ^ 1074) * inject_Z (2 ^ 1074) == inject_Z s)%Q
    as Heq by (field; lra).
  rewrite Heq in Hle.
  assert (eps * inject_Z (2 ^ 1074) == inject_Z (2 ^ 1022))%Q as Heps.
  { unfold Qeq. vm_compute. reflexivity. }
  by rewrite Heps in Hle.
Qed.

Lemma add_value64_strict a x qa qx :
  value64 a qa -> value64 x qx -> (qa < 2)%Q -> (eps <= qx)%Q ->
  (a <? a + x)%float = true.
Proof.
  intros (ma & ea & Ha & Hqa) (mx & ex & Hx & Hqx) Hsmall Hbig.
  eapply add_strict; eauto using value_below_two, value_above_eps.
Qed.

(** ** Values as the formatter sees them *)

Lemma inject_Z_pos n : 0 < n -> (0 < inject_Z n)%Q.
Proof. intros Hn. change 0%Q with (inject_Z 0). by rewrite <- Zlt_Qlt. Qed.

Lemma pow2_scaled m e :
  -1074 <= e ->
  (inject_Z (Zpos m) * Float64.pow2 e
   == inject_Z (scaled m e) / inject_Z (2 ^ 1074))%Q.
Proof.
  intros He. unfold scaled. destruct e as [|p|p]; cbn [Float64.pow2].
  - rewrite Z.add_0_l, inject_Z_mult.
    pose proof unit_pos. set (u := inject_Z (2 ^ 1074)) in *. field. lra.
  - rewrite Z.pow_add_r, !inject_Z_mult by lia.
    change (Z.pow_pos 2 p) with (2 ^ Zpos p).
    pose proof unit_pos. set (u := inject_Z (2 ^ 1074)) in *. field. lra.
  - rewrite Qmake_Qdiv, Pos2Z.inj_pow.
    assert (2 ^ 1074 = 2 ^ (Zneg p + 1074) * 2 ^ Zpos p) as ->.
    { rewrite <- Z.pow_add_r by lia. f_equal. lia. }
    rewrite !inject_Z_mult.
    pose proof (inject_Z_pos (2 ^ (Zneg p + 1074)) ltac:(apply Z.pow_pos_nonneg; lia)).
    pose proof (inject_Z_pos (2 ^ Zpos p) ltac:(apply Z.pow_pos_nonneg; lia)).
    set (a := inject_Z (2 ^ (Zneg p + 1074))) in *.
    set (b := inject_Z (2 ^ Zpos p)) in *.
    change (inject_Z 1) with 1%Q. field. split; lra.
Qed.

Lemma value64_repr x q :
  value64 x q -> exists q', repr x = Finite false q' /\ (q' == q)%Q.
Proof.
  intros (m & e & Hx & Hq).
  exists (inject_Z (Zpos m) * Float64.pow2 e)%Q. split.
  - change (repr x) with (Float64.to_repr x). unfold Float64.to_repr.
    by rewrite Hx.
  - rewrite Hq. apply pow2_scaled. eapply bounded_emin, valid_finite, Hx.
Qed.

Lemma value64_gt_zero x q : value64 x q -> (0 <? x)%float = true.
Proof.
  intros (m & e & Hx & _). rewrite ltb_spec, Hx.
  by change (Prim2SF 0) with (S754_zero false).
Qed.

Lemma ltb_leb_value64 x y qx qy :
  value64 x qx -> value64 y qy ->
  (x <? y)%float = true -> (x <=? y)%float = true.
Proof.
  intros (mx & ex & Hx & _) (my & ey & Hy & _).
  rewrite ltb_spec, leb_spec, Hx, Hy. unfold SFltb, SFleb.
  by destruct (SFcompare _ _) as [[]|].
Qed.

(** ** The cdf column in binary64 *)

Lemma sum_nonneg l : Forall (fun c => 0 < c) l -> 0 <= sum l.
Proof.
  induction 1 as [|x l Hx Hl IH]; [done|]. rewrite sum_cons. lia.
Qed.

Lemma sum_length l : Forall (fun c => 0 < c) l -> Z.of_nat (length l) <= sum l.
Proof.
  induction 1 as [|x l Hx Hl IH]; [done|]. rewrite sum_cons. cbn [length]. lia.
Qed.

Lemma inject_Z_nonzero n : n <> 0 -> ~ (inject_Z n == 0)%Q.
Proof. unfold Qeq. cbn. lia. Qed.

Lemma fraction_nonneg a n : 0 <= a -> 0 < n -> (0 <= fraction a n)%Q.
Proof.
  intros Ha Hn. unfold fraction. apply Qle_shift_div_l.
  - by apply inject_Z_pos.
  - rewrite Qmult_0_l. change 0%Q with (inject_Z 0). rewrite <- Zle_Qle. lia.
Qed.

Lemma fraction_le a b n : a <= b -> 0 < n -> (fraction a n <= fraction b n)%Q.
Proof.
  intros Hab Hn. unfold fraction, Qdiv. apply Qmult_le_compat_r.
  - by rewrite <- Zle_Qle.
  - apply Qinv_le_0_compat, Qlt_le_weak. by apply inject_Z_pos.
Qed.

Lemma fraction_one n : 0 < n -> (fraction n n == 1)%Q.
Proof.
  intros Hn. unfold fraction. field. apply inject_Z_nonzero. lia.
Qed.

Lemma fraction_plus a b n :
  0 < n -> (fraction a n + fraction b n == fraction (a + b) n)%Q.
Proof.
  intros Hn. unfold fraction. rewrite inject_Z_plus. field.
  apply inject_Z_nonzero. lia.
Qed.

Lemma fraction_unit n : 0 < n <= 2 ^ 51 -> (2 * eps <= fraction 1 n)%Q.
Proof.
  intros Hn. unfold fraction. apply Qle_shift_div_l; [apply inject_Z_pos; lia|].
  assert (inject_Z n <= 2251799813685248)%Q.
  { change 2251799813685248%Q with (inject_Z (2 ^ 51)). rewrite <- Zle_Qle. lia. }
  change (inject_Z 1) with 1%Q. unfold eps. lra.
Qed.

(** The running sums of the pdf entries of the counts [l], started from a
    value [acc] that stands for [C / n] after [j] roundings: each sum is
    within [K] roundings of the exact fraction, and above the one before. *)
Lemma cumsum_from_value64 (n K : Z) (l : list Z) :
  0 < n <= 2 ^ 51 -> K <= 2 ^ 51 ->
  forall (acc : float) (qa : Q) (C j : Z),
    value64 acc qa -> 0 < C -> Forall (fun c => 0 < c) l -> C + sum l <= n ->
    1 <= j -> j + Z.of_nat (length l) <= K ->
    ((1 - inject_Z j * eps) * fraction C n <= qa
     <= (1 + 2 * (inject_Z j * eps)) * fraction C n)%Q ->
    Forall2 (fun v T => exists q,
               value64 v q /\
               ((1 - inject_Z K * eps) * fraction T n <= q
                <= (1 + 2 * (inject_Z K * eps)) * fraction T n)%Q)
            (cumsum_from acc (map (fun c => truediv (of_int c) (of_int n)) l))
            (totals_from C l) /\
    Forall (fun v => PrimFloat.ltb acc v = true)
           (cumsum_from acc (map (fun c => truediv (of_int c) (of_int n)) l)) /\
    StronglySorted (fun a b => PrimFloat.ltb a b = true)
           (cumsum_from acc (map (fun c => truediv (of_int c) (of_int n)) l)).
Proof.
  intros Hn HK. induction l as [|f l IH]; intros acc qa C j Hacc HC Hpos Hsum Hj HjK Hqa.
  { repeat split; constructor. }
  cbn [map cumsum_from totals_from]. cbn [length] in HjK.
  rewrite sum_cons in Hsum.
  apply Forall_cons_1 in Hpos as [Hf Hpos].
  pose proof (sum_nonneg l Hpos) as Hsl.
  destruct (truediv_value64 f n ltac:(lia) ltac:(lia) ltac:(lia)) as (qx & Hx & Hqx).
  fold (fraction f n) in Hqx.
  change (plus acc (truediv (of_int f) (of_int n)))
    with (PrimFloat.add acc (PrimFloat.div (Float64.from_int f) (Float64.from_int n))).
  pose proof (fraction_nonneg C n ltac:(lia) ltac:(lia)) as HS0.
  pose proof (fraction_nonneg f n ltac:(lia) ltac:(lia)) as Hf0.
  pose proof (fraction_le C n n ltac:(lia) ltac:(lia)) as HS1.
  pose proof (fraction_le f n n ltac:(lia) ltac:(lia)) as Hf1.
  pose proof (fraction_le 1 f n ltac:(lia) ltac:(lia)) as Hf2.
  pose proof (fraction_unit n Hn) as Hunit.
  rewrite fraction_one in HS1, Hf1 by lia.
  assert (1 <= inject_Z j)%Q as Hj1.
  { change 1%Q with (inject_Z 1). by rewrite <- Zle_Qle. }
  assert (inject_Z j + 1 <= inject_Z K)%Q as HjK1.
  { change 1%Q with (inject_Z 1). rewrite <- inject_Z_plus, <- Zle_Qle. lia. }
  assert (inject_Z K <= 2251799813685248)%Q as HK1.
  { change 2251799813685248%Q with (inject_Z (2 ^ 51)). by rewrite <- Zle_Qle. }
  set (t := (inject_Z j * eps)%Q) in *.
  assert (eps <= t /\ 2 * t + 2 * eps <= 1)%Q as [Ht0 Ht1].
  { unfold t, eps. split; lra. }
  assert (0 < eps /\ eps < 1)%Q as [He0 He1] by (unfold eps; split; lra).
  assert (qa < 2 /\ qx <= 2 /\ eps <= qx)%Q as (Hqa2 & Hqx2 & Hqx0).
  { split; [|split].
    - apply Qle_lt_trans with ((1 + 2 * t) * fraction C n)%Q; [lra|].
      apply Qle_lt_trans with ((1 + 2 * t) * 1)%Q; [|lra].
      apply Qmult_le_l; lra.
    - apply Qle_trans with ((1 + eps) * fraction f n)%Q; [lra|].
      apply Qle_trans with ((1 + eps) * 1)%Q; [|lra].
      apply Qmult_le_l; lra.
    - apply Qle_trans with ((1 - eps) * fraction f n)%Q; [|lra].
      apply Qle_trans with ((1 - eps) * (2 * eps))%Q; [unfold eps; lra|].
      apply Qmult_le_l; lra. }
  destruct (add_value64 _ _ qa qx Hacc Hx ltac:(lra)) as (q & Hq & Hlo & Hhi).
  pose proof (add_value64_strict _ _ qa qx Hacc Hx Hqa2 Hqx0) as Hstrict.
  assert ((1 - (t + eps)) * fraction (C + f) n <= q
          <= (1 + 2 * (t + eps)) * fraction (C + f) n)%Q as Hq'.
  { rewrite <- fraction_plus by lia. split.
    - rewrite Qmult_comm.
      apply (down_step _ _ qa qx t eps); first [lra|rewrite Qmult_comm; lra].
    - rewrite Qmult_comm.
      apply (up_step _ _ qa qx t eps); first [lra|rewrite Qmult_comm; lra]. }
  assert ((t + eps == inject_Z (j + 1) * eps)%Q) as Hstep.
  { unfold t. rewrite inject_Z_plus. change (inject_Z 1) with 1%Q. ring. }
  destruct (IH (PrimFloat.add acc (PrimFloat.div (Float64.from_int f)
                                                  (Float64.from_int n)))
              q (C + f) (j + 1)) as (Hall & Hgt & Hsorted);
    try done; try lia.
  { rewrite <- Hstep. exact Hq'. }
  split; [|split].
  - constructor; [|done]. exists q. split; [done|].
    pose proof (fraction_nonneg (C + f) n ltac:(lia) ltac:(lia)) as HT0.
    assert (t + eps <= inject_Z K * eps)%Q as HtK.
    { unfold t. unfold eps in *. lra. }
    split.
    + apply Qle_trans with ((1 - (t + eps)) * fraction (C + f) n)%Q; [|lra].
      apply Qmult_le_compat_r; lra.
    + apply Qle_trans with ((1 + 2 * (t + eps)) * fraction (C + f) n)%Q; [lra|].
      apply Qmult_le_compat_r; lra.
  - constructor; [done|].
    apply Forall2_Forall_l with (Q := fun v => exists q, value64 v q) in Hall.
    + rewrite List.Forall_forall in Hall, Hgt. apply List.Forall_forall.
      intros v Hv. destruct (Hall v Hv) as (qv & Hqv).
      exact (ltb_value64_trans _ _ _ _ _ _ Hacc Hq Hqv Hstrict (Hgt v Hv)).
    + apply List.Forall_forall. intros T _ v (qv & Hv & _). by exists qv.
  - by constructor.
Qed.

(** The cdf column against the running totals of the counts: with [k]
    distinct delays every entry is a positive finite number within [k]
    roundings of its exact fraction, and above the entry before it. *)
Lemma cdf_value64 (delays : list Z) :
  0 < Z.of_nat (length delays) <= 2 ^ 51 ->
  let n := Z.of_nat (length delays) in
  let s := cdf_stats (F := float) delays in
  let k := Z.of_nat (length (sf_delay s)) in
  Forall2 (fun v T => exists q,
             value64 v q /\
             ((1 - inject_Z k * eps) * fraction T n <= q
              <= (1 + 2 * (inject_Z k * eps)) * fraction T n)%Q)
          (sf_cdf s) (totals_from 0 (sf_frequency s)) /\
  StronglySorted (fun a b => PrimFloat.ltb a b = true) (sf_cdf s).
Proof.
  intros Hn. cbn zeta. cbn [cdf_stats sf_cdf sf_frequency sf_delay].
  rewrite groupby_count_sum, !length_map.
  set (n := Z.of_nat (length delays)) in *.
  assert (Forall (fun c => 0 < c) (map snd (groupby_count delays))) as Hpos.
  { pose proof (groupby_count_positive delays) as Hpos.
    unfold counts_positive in Hpos. rewrite List.Forall_forall in Hpos.
    apply List.Forall_forall. intros c ([k c'] & <- & Hin)%in_map_iff.
    by apply (Hpos (k, c')). }
  pose proof (groupby_count_sum delays) as Hsum. fold n in Hsum.
  rewrite <- (length_map snd (groupby_count delays)).
  destruct (map snd (groupby_count delays)) as [|f counts].
  { split; constructor. }
  cbn [map cumsum totals_from]. rewrite sum_cons in Hsum.
  apply Forall_cons_1 in Hpos as [Hf Hpos].
  pose proof (sum_nonneg counts Hpos) as Hs0.
  pose proof (sum_length counts Hpos) as Hlen.
  set (k := Z.of_nat (length (f :: counts))).
  assert (k = 1 + Z.of_nat (length counts)) as Hk by (unfold k; cbn [length]; lia).
  destruct (truediv_value64 f n ltac:(lia) ltac:(lia) ltac:(lia)) as (q0 & Hx & Hq0).
  fold (fraction f n) in Hq0.
  change (truediv (of_int f) (of_int n))
    with (PrimFloat.div (Float64.from_int f) (Float64.from_int n)).
  pose proof (fraction_nonneg f n ltac:(lia) ltac:(lia)) as Hf0.
  assert (0 < eps)%Q as He0 by (unfold eps; lra).
  assert (1 <= inject_Z k)%Q as Hk1.
  { change 1%Q with (inject_Z 1). rewrite <- Zle_Qle. lia. }
  assert (0 <= fraction f n * eps /\ 0 <= fraction f n * (inject_Z k * eps - eps))%Q
    as [Hfe HfK].
  { split; apply Qmult_le_0_compat; try lra.
    assert (eps * 1 <= eps * inject_Z k)%Q by (apply Qmult_le_l; lra). lra. }
  destruct (cumsum_from_value64 n k counts ltac:(lia) ltac:(lia)
              (PrimFloat.div (Float64.from_int f) (Float64.from_int n))
              q0 (0 + f) 1) as (Hall & Hgt & Hsorted);
    try done; try lia.
  { rewrite Z.add_0_l. change (inject_Z 1) with 1%Q. split; lra. }
  split; [|by constructor].
  constructor; [|done]. exists q0. split; [done|].
  rewrite Z.add_0_l. split; lra.
Qed.

Lemma ltb_sorted_leb (l : list float) :
  Forall (fun v => exists q, value64 v q) l ->
  StronglySorted (fun a b => PrimFloat.ltb a b = true) l ->
  StronglySorted (fun a b => PrimFloat.leb a b = true) l.
Proof.
  intros Hall. induction 1 as [|x l Hl IH Hx]; [constructor|].
  apply Forall_cons_1 in Hall as [(qx & Hqx) Hall].
  constructor; [by apply IH|].
  rewrite List.Forall_forall in Hall, Hx. apply List.Forall_forall.
  intros v Hv. destruct (Hall v Hv) as (qv & Hqv).
  eapply ltb_leb_value64; eauto.
Qed.

(** C10 (as amended).  For a pid with at least one row (and no more than
    2^51 of them), the delays the cdf is plotted against are strictly
    increasing, and the cdf column, as float64 computes it, is
    nondecreasing and above zero throughout.  Its values carry rounding
    error: with [k] distinct delays none exceeds [1 + k * 2^-51], and the
    last one lies between [1 - k * 2^-52] and [1 + k * 2^-51]. *)
Theorem float64_cdf_is_monotone_and_near_one (data : DataFrame) (p : Z) :
  partition data p <> [] ->
  Z.of_nat (length (partition data p)) <= 2 ^ 51 ->
  let s := cdf_stats (F := float) (map snd (partition data p)) in
  let k := inject_Z (Z.of_nat (length (sf_delay s))) in
  StronglySorted Z.lt (sf_delay s) /\
  length (sf_cdf s) = length (sf_delay s) /\
  StronglySorted (fun a b => PrimFloat.leb a b = true) (sf_cdf s) /\
  Forall (fun v => PrimFloat.ltb 0 v = true /\
                   exists q, repr v = Finite false q /\
                             (q <= 1 + 2 * (k * eps))%Q)
         (sf_cdf s) /\
  exists v q,
    last (sf_cdf s) = Some v /\ repr v = Finite false q /\
    (1 - k * eps <= q <= 1 + 2 * (k * eps))%Q.
Proof.
  intros Hne Hrows s k.
  set (delays := map snd (partition data p)) in *.
  assert (length delays = length (partition data p)) as Hlen
    by apply length_map.
  assert (0 < Z.of_nat (length delays)) as Hn0.
  { rewrite Hlen. destruct (partition data p); [done|cbn; lia]. }
  destruct (cdf_stats_spec (F := float) delays)
    as (Hsorted & _ & _ & _ & _ & Hlens).
  destruct (cdf_value64 delays ltac:(lia)) as (Hall & Hstrict).
  fold s in Hsorted, Hlens, Hall, Hstrict. cbn zeta in Hall. fold k in Hall.
  set (n := Z.of_nat (length delays)) in *.
  assert (Forall (fun c => 0 < c) (sf_frequency s)) as Hpos.
  { pose proof (groupby_count_positive delays) as Hpos.
    unfold counts_positive in Hpos. rewrite List.Forall_forall in Hpos.
    apply List.Forall_forall. intros c ([d c'] & <- & Hin)%in_map_iff.
    by apply (Hpos (d, c')). }
  assert (sum (sf_frequency s) = n) as Hsum by apply groupby_count_sum.
  assert (0 <= k * eps)%Q as Hk0.
  { apply Qmult_le_0_compat; [|unfold eps; lra].
    unfold k. change 0%Q with (inject_Z 0). rewrite <- Zle_Qle. lia. }
  assert (Forall (fun v => exists q, value64 v q) (sf_cdf s)) as Hvalues.
  { eapply Forall2_Forall_l; [exact Hall|].
    apply List.Forall_forall. intros T _ v (q & Hv & _). by exists q. }
  split; [done|]. split; [done|]. split; [by apply ltb_sorted_leb|]. split.
  - eapply Forall2_Forall_l; [exact Hall|].
    pose proof (totals_from_bounds 0 _ Hpos) as Hb. rewrite Hsum in Hb.
    eapply List.Forall_impl; [|exact Hb].
    intros T HT v (q & Hv & _ & Hhi). cbn beta in HT.
    split; [by eapply value64_gt_zero|].
    destruct (value64_repr v q Hv) as (q' & Hrepr & Hq').
    exists q'. split; [done|]. rewrite Hq'.
    pose proof (fraction_le T n n ltac:(lia) ltac:(lia)) as HT1.
    rewrite fraction_one in HT1 by lia.
    eapply Qle_trans; [exact Hhi|].
    apply Qle_trans with ((1 + 2 * (k * eps)) * 1)%Q; [|lra].
    apply Qmult_le_l; lra.
  - assert (sf_frequency s <> []) as Hfreq.
    { intros Hnil. rewrite Hnil in Hsum. unfold sum in Hsum. cbn in Hsum. lia. }
    pose proof (totals_from_last 0 _ Hfreq) as Hlast.
    rewrite Hsum, Z.add_0_l in Hlast.
    pose proof (Forall2_last _ _ _ Hall) as Hl. rewrite Hlast in Hl.
    inversion Hl as [v T (q & Hv & Hlo & Hhi) Hv' HT|]; subst.
    destruct (value64_repr v q Hv) as (q' & Hrepr & Hq').
    exists v, q'. split; [done|]. split; [done|].
    rewrite Hq'. rewrite fraction_one in Hlo, Hhi by lia. lra.
Qed.

(** ** Runs on the sample inputs *)

(** C1 at the two-pid distribution run. *)
Lemma distribution_mode_witness :
  exists st : State,
    sample_loader (arg_file cdf_args) = inr sample_table /\
    run (F := float) sample_loader sample_ticks cdf_args = inr st /\
    arg_cdf cdf_args = true /\
    forall i p, arg_pids cdf_args !! i = Some p ->
    exists x,
      fig_axes (st_fig st) !! i = Some x /\
      let delays := map snd (partition sample_table p) in
      let s := cdf_stats (F := float) delays in
      let plotted :=
        with_xlabel "latency (µs)"
          (draw (FramePlot (zip (sf_delay s) (sf_cdf s))) blank_axes) in
      ax_artists x = [FramePlot (zip (sf_delay s) (sf_cdf s))] /\
      StronglySorted Z.lt (sf_delay s) /\
      (forall d, In d (sf_delay s) <-> In d delays) /\
      (forall j d, sf_delay s !! j = Some d ->
                   sf_frequency s !! j = Some (count_of d delays)) /\
      sf_pdf s = map (fun c => truediv (of_int c)
                                       (of_int (Z.of_nat (length delays))))
                     (sf_frequency s) /\
      (forall j, (j < length (sf_pdf s))%nat ->
                 sf_cdf s !! j = running_sum (take (S j) (sf_pdf s))) /\
      ax_yticklabels x = Some (map format_percent (sample_ticks plotted)) /\
      Forall (fun t => writes_percent t (format_percent t))
             (sample_ticks plotted).
Proof.
  eexists. split; [reflexivity|]. split; [vm_compute; reflexivity|].
  split; [reflexivity|].
  apply (distribution_mode_plots_empirical_cdf
           sample_loader sample_ticks cdf_args sample_table);
    [reflexivity | vm_compute; reflexivity | reflexivity].
Defined.

(** C2 at the four-pid raster run. *)
Lemma pid_data_witness :
  exists st : State,
    sample_loader (arg_file raster_args) = inr sample_table /\
    run (F := float) sample_loader sample_ticks raster_args = inr st /\
    forall i p, arg_pids raster_args !! i = Some p ->
      st_pid_data st !! p = Some (partition sample_table p) /\
      (forall t d, In (t, d) (partition sample_table p) <->
                   exists r, In r (rows sample_table) /\ row_pid r = p /\
                             row_ts r = t /\ row_delay r = d) /\
      exists x,
        fig_axes (st_fig st) !! i = Some x /\
        ax_artists x =
          [if arg_cdf raster_args
           then FramePlot (cdf_points (partition sample_table p))
           else SeriesPlot (partition sample_table p) "." "None"].
Proof.
  eexists. split; [reflexivity|]. split; [vm_compute; reflexivity|].
  apply (pid_data_is_exact_partition
           sample_loader sample_ticks raster_args sample_table);
    [reflexivity | vm_compute; reflexivity].
Defined.

(** C3 at the four-pid raster run. *)
Lemma subplot_layout_witness :
  exists st : State,
    sample_loader (arg_file raster_args) = inr sample_table /\
    run (F := float) sample_loader sample_ticks raster_args = inr st /\
    length (fig_axes (st_fig st)) = length (arg_pids raster_args) /\
    (length (arg_pids raster_args) = 1%nat ->
       fig_nrows (st_fig st) = 1%nat /\ fig_ncols (st_fig st) = 1%nat /\
       exists x, fig_axes (st_fig st) = [x] /\
                 shows raster_args sample_table (arg_pid0 raster_args) x) /\
    (length (arg_pids raster_args) = 2%nat \/
     length (arg_pids raster_args) = 3%nat ->
       fig_nrows (st_fig st) = length (arg_pids raster_args) /\
       fig_ncols (st_fig st) = 1%nat /\
       forall i p, arg_pids raster_args !! i = Some p ->
                   exists x, axes_at (st_fig st) i 0 = Some x /\
                             shows raster_args sample_table p x) /\
    (forall p0 p1 p2 p3, arg_pids raster_args = [p0; p1; p2; p3] ->
       fig_nrows (st_fig st) = 2%nat /\ fig_ncols (st_fig st) = 2%nat /\
       exists x00 x01 x10 x11,
         axes_at (st_fig st) 0 0 = Some x00 /\
         axes_at (st_fig st) 0 1 = Some x01 /\
         axes_at (st_fig st) 1 0 = Some x10 /\
         axes_at (st_fig st) 1 1 = Some x11 /\
         shows raster_args sample_table p0 x00 /\
         shows raster_args sample_table p1 x01 /\
         shows raster_args sample_table p2 x10 /\
         shows raster_args sample_table p3 x11).
Proof.
  eexists. split; [reflexivity|]. split; [vm_compute; reflexivity|].
  apply (subplot_layout sample_loader sample_ticks raster_args sample_table);
    [reflexivity | vm_compute; reflexivity].
Defined.

(** C4: five pids do get a layout, a column of five subplots, each drawn
    and titled for its pid. *)
Lemma five_pids_get_a_column :
  exists st : State,
    run (F := float) sample_loader sample_ticks five_pid_args = inr st /\
    (4 < length (arg_pids five_pid_args))%nat /\
    fig_nrows (st_fig st) = 5%nat /\ fig_ncols (st_fig st) = 1%nat /\
    map ax_title (fig_axes (st_fig st))
    = [Some "pid=7"; Some "pid=8"; Some "pid=9"; Some "pid=10"; Some "pid=11"] /\
    map (fun x => length (ax_artists x)) (fig_axes (st_fig st))
    = [1; 1; 1; 1; 1]%nat.
Proof.
  eexists. split; [vm_compute; reflexivity|].
  repeat split; vm_compute; lia.
Qed.

(** C4 (as amended) at the five-pid run. *)
Lemma more_than_four_pids_witness :
  exists st : State,
    sample_loader (arg_file five_pid_args) = inr sample_table /\
    run (F := float) sample_loader sample_ticks five_pid_args = inr st /\
    (4 < length (arg_pids five_pid_args))%nat /\
    fig_nrows (st_fig st) = length (arg_pids five_pid_args) /\
    fig_ncols (st_fig st) = 1%nat /\
    length (fig_axes (st_fig st)) = length (arg_pids five_pid_args) /\
    forall i p, arg_pids five_pid_args !! i = Some p ->
                exists x, axes_at (st_fig st) i 0 = Some x /\
                          shows five_pid_args sample_table p x.
Proof.
  eexists. split; [reflexivity|]. split; [vm_compute; reflexivity|].
  split; [cbn; lia|].
  apply (more_than_four_pids_stack_in_a_column
           sample_loader sample_ticks five_pid_args sample_table);
    [reflexivity | vm_compute; reflexivity | cbn; lia].
Defined.

(** C5: a table the loader accepts, and a run that fails all the same. *)
Lemma missing_pid_column_raises_key_error :
  sample_loader (arg_file nopid_args) = inr table_without_pid /\
  run (F := float) sample_loader sample_ticks nopid_args
  = inl (KeyError "pid").
Proof. split; vm_compute; reflexivity. Qed.

(** C6 at the two-pid distribution run. *)
Lemma modes_are_exclusive_witness :
  exists st : State,
    sample_loader (arg_file cdf_args) = inr sample_table /\
    run (F := float) sample_loader sample_ticks cdf_args = inr st /\
    (forall p a,
       do_plot sample_ticks cdf_args sample_table p a
       = if arg_cdf cdf_args
         then plot_cdf sample_ticks cdf_args sample_table p a
         else plot_plot cdf_args a) /\
    forall i p, arg_pids cdf_args !! i = Some p ->
    exists x,
      fig_axes (st_fig st) !! i = Some x /\
      (arg_cdf cdf_args = true ->
         ax_artists x = [FramePlot (cdf_points (partition sample_table p))] /\
         ax_xlabel x = Some "latency (µs)" /\ ax_ylabel x = None /\
         ax_title x = None /\ is_Some (ax_yticklabels x)) /\
      (arg_cdf cdf_args = false ->
         ax_artists x = [SeriesPlot (partition sample_table p) "." "None"] /\
         ax_xlabel x = Some "Time" /\ ax_ylabel x = Some "latency (µs)" /\
         is_Some (ax_title x) /\ ax_yticklabels x = None).
Proof.
  eexists. split; [reflexivity|]. split; [vm_compute; reflexivity|].
  apply (modes_are_exclusive sample_loader sample_ticks cdf_args sample_table);
    [reflexivity | vm_compute; reflexivity].
Defined.

(** C7 at the four-pid raster run, with both limits given. *)
Lemma axis_limits_witness :
  exists st : State,
    sample_loader (arg_file raster_args) = inr sample_table /\
    run (F := float) sample_loader sample_ticks raster_args = inr st /\
    fig_sharex (st_fig st) = false /\ fig_sharey (st_fig st) = false /\
    (forall x, In x (fig_axes (st_fig st)) ->
       ax_xlim x = match arg_xlim raster_args with
                   | Some n => Some (0, n)
                   | None => None
                   end /\
       ax_ylim x = match arg_ylim raster_args with
                   | Some n => Some (0, n)
                   | None => None
                   end) /\
    (forall i p, arg_pids raster_args !! i = Some p ->
       exists x, fig_axes (st_fig st) !! i = Some x /\
                 shows raster_args sample_table p x).
Proof.
  eexists. split; [reflexivity|]. split; [vm_compute; reflexivity|].
  apply (axis_limits sample_loader sample_ticks raster_args sample_table);
    [reflexivity | vm_compute; reflexivity].
Defined.

(** C8 at the four-pid raster run. *)
Lemma raster_titles_witness :
  exists st : State,
    run (F := float) sample_loader sample_ticks raster_args = inr st /\
    arg_cdf raster_args = false /\
    length (fig_axes (st_fig st)) = length (arg_pids raster_args) /\
    forall i p, arg_pids raster_args !! i = Some p ->
    exists x,
      fig_axes (st_fig st) !! i = Some x /\
      ax_title x = Some (match arg_subtitle raster_args with
                         | Some t => t
                         | None => "pid=" +:+ pretty p
                         end).
Proof.
  eexists. split; [vm_compute; reflexivity|]. split; [reflexivity|].
  apply (raster_titles sample_loader sample_ticks raster_args);
    [vm_compute; reflexivity | reflexivity].
Defined.

(** C9 at the distribution run that saves to [out.png]. *)
Lemma output_then_display_witness :
  exists st : State,
    run (F := float) sample_loader sample_ticks cdf_args = inr st /\
    exists printed,
      Forall is_print printed /\
      st_trace st =
        printed
        ++ match arg_output cdf_args with
           | Some path => [Savefig path (st_fig st)]
           | None => []
           end
        ++ [Show (st_fig st)].
Proof.
  eexists. split; [vm_compute; reflexivity|].
  apply (output_then_display sample_loader sample_ticks cdf_args).
  vm_compute; reflexivity.
Defined.

(** C10: in float64, nine samples with nine distinct delays give a cdf
    whose last value is above 1: it is neither inside (0, 1] nor equal
    to 1.  The run draws exactly that column. *)
Lemma float64_cdf_ends_above_one :
  partition nine_delays 1 <> [] /\
  (exists v,
     last (sf_cdf (cdf_stats (F := float) (map snd (partition nine_delays 1))))
     = Some v /\
     PrimFloat.ltb 1 v = true /\ PrimFloat.eqb v 1 = false) /\
  exists (st : State) x,
    run (F := float) sample_loader sample_ticks nine_args = inr st /\
    fig_axes (st_fig st) !! 0%nat = Some x /\
    ax_artists x =
      [FramePlot
         (zip (sf_delay (cdf_stats (F := float) (map snd (partition nine_delays 1))))
              (sf_cdf (cdf_stats (map snd (partition nine_delays 1)))))].
Proof.
  split; [by vm_compute|]. split.
  - eexists. split; [vm_compute; reflexivity|]. split; vm_compute; reflexivity.
  - eexists _, _. split; [vm_compute; reflexivity|].
    split; vm_compute; reflexivity.
Qed.

(** C10 (as amended) at pid 7 of the sample table. *)
Lemma float64_cdf_witness :
  partition sample_table 7 <> [] /\
  Z.of_nat (length (partition sample_table 7)) <= 2 ^ 51 /\
  let s := cdf_stats (F := float) (map snd (partition sample_table 7)) in
  let k := inject_Z (Z.of_nat (length (sf_delay s))) in
  StronglySorted Z.lt (sf_delay s) /\
  length (sf_cdf s) = length (sf_delay s) /\
  StronglySorted (fun a b => PrimFloat.leb a b = true) (sf_cdf s) /\
  Forall (fun v => PrimFloat.ltb 0 v = true /\
                   exists q, repr v = Finite false q /\
                             (q <= 1 + 2 * (k * eps))%Q)
         (sf_cdf s) /\
  exists v q,
    last (sf_cdf s) = Some v /\ repr v = Finite false q /\
    (1 - k * eps <= q <= 1 + 2 * (k * eps))%Q.
Proof.
  split; [by vm_compute|]. split; [by vm_compute|].
  apply (float64_cdf_is_monotone_and_near_one sample_table 7); by vm_compute.
Defined.

(** ** Further properties of the statistics frame *)


Lemma totals_from_lookup acc (cs : list Z) (j : nat) :
  (j < length cs)%nat ->
  totals_from acc cs !! j = Some (acc + sum (take (S j) cs)).
Proof.
  revert acc j. induction cs as [|c cs IH]; intros acc j Hj; cbn in Hj; [lia|].
  destruct j as [|j]; cbn [totals_from take].
  - cbn [lookup list_lookup]. rewrite take_0, sum_cons. f_equal. unfold sum. cbn. lia.
  - cbn [lookup list_lookup]. rewrite IH by lia. rewrite sum_cons. f_equal. lia.
Qed.

Lemma sum_map_add {A} (f g : A -> Z) (l : list A) :
  sum (map (fun x => f x + g x) l) = sum (map f l) + sum (map g l).
Proof.
  induction l as [|x l IH]; [done|]. cbn [map]. rewrite !sum_cons, IH. lia.
Qed.

Lemma sum_indicator_absent x (ks : list Z) :
  ~ In x ks -> sum (map (fun k => if k =? x then 1 else 0) ks) = 0.
Proof.
  induction ks as [|k ks IH]; [done|]. cbn [map In]. intros Hn.
  rewrite sum_cons, IH by tauto. destruct (Z.eqb_spec k x); [tauto|lia].
Qed.

Lemma sum_indicator_prefix x d (ks : list Z) (j : nat) :
  StronglySorted Z.lt ks -> In x ks -> ks !! j = Some d ->
  sum (map (fun k => if k =? x then 1 else 0) (take (S j) ks))
  = if x <=? d then 1 else 0.
Proof.
  intros Hs. revert j. induction Hs as [|k ks Hs IH Hk]; intros j Hin Hj; [done|].
  rewrite List.Forall_forall in Hk. cbn [take map]. rewrite sum_cons.
  destruct j as [|j].
  - cbn in Hj. injection Hj as ->. rewrite take_0. cbn [map].
    destruct Hin as [->|Hin].
    + rewrite Z.eqb_refl, Z.leb_refl. done.
    + apply Hk in Hin. destruct (Z.eqb_spec d x), (Z.leb_spec x d); try lia. done.
  - cbn in Hj. assert (k < d) by (apply Hk, list_elem_of_In; by eapply list_elem_of_lookup_2).
    destruct Hin as [->|Hin].
    + rewrite Z.eqb_refl, sum_indicator_absent.
      * destruct (Z.leb_spec x d); lia.
      * intros Hin%list_elem_of_In.
        apply (elem_of_sublist _ ks), list_elem_of_In, Hk in Hin;
          [lia | apply sublist_take].
    + rewrite (IH j Hin Hj). pose proof (Hk _ Hin).
      destruct (Z.eqb_spec k x); lia.
Qed.

Lemma counts_of_prefix d (ks l : list Z) (j : nat) :
  StronglySorted Z.lt ks -> (forall x, In x l -> In x ks) -> ks !! j = Some d ->
  sum (map (fun k => count_of k l) (take (S j) ks)) = count_le d l.
Proof.
  intros Hs Hall Hj. induction l as [|x l IH].
  - unfold count_le, count_of. cbn. generalize (take (S j) ks).
    induction l as [|k l IH]; [done|]. cbn [map]. rewrite sum_cons, IH. done.
  - rewrite (map_ext _ (fun k => count_of k l + (if k =? x then 1 else 0)))
      by (intros k; apply count_of_cons).
    rewrite sum_map_add, IH by (intros y Hy; apply Hall; by right).
    rewrite (sum_indicator_prefix x d ks j Hs) by (try done; apply Hall; by left).
    unfold count_le. cbn [List.filter]. destruct (x <=? d); cbn [length]; lia.
Qed.

(** X9.  The cdf value plotted at delay [d] is, up to float64 rounding, the
    number of the pid's rows whose delay is at most [d] divided by the
    number of its rows: with [k] distinct delays the plotted value is a
    positive finite number between [1 - k * 2^-52] and [1 + k * 2^-51]
    times that fraction.  The curve is the empirical distribution function
    of the sample. *)
Theorem float64_cdf_is_fraction_at_or_below (data : DataFrame) (p : Z) j d :
  Z.of_nat (length (partition data p)) <= 2 ^ 51 ->
  let delays := map snd (partition data p) in
  let s := cdf_stats (F := float) delays in
  let k := inject_Z (Z.of_nat (length (sf_delay s))) in
  let frac := fraction (count_le d delays) (Z.of_nat (length delays)) in
  sf_delay s !! j = Some d ->
  exists v q,
    sf_cdf s !! j = Some v /\ repr v = Finite false q /\
    ((1 - k * eps) * frac <= q <= (1 + 2 * (k * eps)) * frac)%Q.
Proof.
  intros Hrows delays s k frac Hj.
  assert (length delays = length (partition data p)) as Hlen
    by apply length_map.
  assert (delays <> []) as Hne.
  { intros Hnil. unfold s in Hj. rewrite Hnil in Hj. done. }
  assert (0 < Z.of_nat (length delays)) as Hn0.
  { destruct delays; [done|cbn; lia]. }
  destruct (cdf_value64 delays ltac:(lia)) as (Hall & _).
  cbn zeta in Hall. fold delays in Hall. fold s in Hall. fold k in Hall.
  destruct (cdf_stats_spec (F := float) delays)
    as (Hsorted & Hkeys & Hcount & _ & _ & Hlens).
  fold s in Hsorted, Hkeys, Hcount, Hlens.
  assert (j < length (sf_cdf s))%nat as Hlt.
  { rewrite Hlens. by eapply lookup_lt_Some. }
  destruct (lookup_lt_is_Some_2 (sf_cdf s) j Hlt) as [v Hv].
  destruct (Forall2_lookup_l _ _ _ _ _ Hall Hv) as (T & HT & q & Hq & Hb).
  assert (T = count_le d delays) as ->.
  { assert (j < length (sf_frequency s))%nat as Hlt'.
    { cbn [s cdf_stats sf_frequency]. rewrite length_map.
      apply lookup_lt_Some in Hj. cbn [s cdf_stats sf_delay] in Hj.
      by rewrite length_map in Hj. }
    rewrite totals_from_lookup in HT by done. injection HT as <-.
    rewrite Z.add_0_l.
    assert (map snd (groupby_count delays)
            = map (fun k => count_of k delays) (map fst (groupby_count delays)))
      as ->.
    { rewrite map_map. apply map_ext_in. intros [k0 c] Hin. cbn.
      by apply groupby_count_In. }
    rewrite firstn_map.
    apply (counts_of_prefix d (map fst (groupby_count delays)) delays j);
      [exact Hsorted| |exact Hj].
    intros x Hx. by apply Hkeys. }
  destruct (value64_repr v q Hq) as (q' & Hrepr & Hq').
  exists v, q'. split; [done|]. split; [done|]. rewrite Hq'. exact Hb.
Qed.

(** X10.  In float64 the cdf column is strictly increasing as long as the
    pid has no more than 2^51 rows: every distinct delay adds a step that
    rounding does not swallow, so no two points of the curve share a
    height. *)
Theorem float64_cdf_strictly_increasing (delays : list Z) :
  Z.of_nat (length delays) <= 2 ^ 51 ->
  StronglySorted (fun a b => PrimFloat.ltb a b = true)
                 (sf_cdf (cdf_stats (F := float) delays)).
Proof.
  intros Hrows. destruct delays as [|d0 delays]; [constructor|].
  apply cdf_value64. cbn [length] in *. lia.
Qed.

Lemma assoc_below d acc :
  Forall (Z.lt d) (map fst acc) -> assoc d acc = 0.
Proof.
  intros Hlt. apply assoc_absent. intros Hin.
  rewrite List.Forall_forall in Hlt. apply Hlt in Hin. lia.
Qed.

Lemma sorted_counts_ext (g g' : list (Z * Z)) :
  keys_sorted g -> keys_sorted g' ->
  counts_positive g -> counts_positive g' ->
  (forall d, assoc d g = assoc d g') -> g = g'.
Proof.
  unfold keys_sorted, counts_positive. revert g'.
  induction g as [|[k c] g IH]; intros [|[k' c'] g'] Hs Hs' Hp Hp' Hext.
  - done.
  - inversion Hp' as [|? ? Hc' _]; subst. specialize (Hext k').
    cbn in Hext, Hc'. rewrite Z.eqb_refl in Hext. lia.
  - inversion Hp as [|? ? Hc _]; subst. specialize (Hext k).
    cbn in Hext, Hc. rewrite Z.eqb_refl in Hext. lia.
  - cbn [map fst] in Hs, Hs'.
    apply StronglySorted_inv in Hs as [Hs Hk].
    apply StronglySorted_inv in Hs' as [Hs' Hk'].
    inversion Hp as [|? ? Hc Hp1]; subst.
    inversion Hp' as [|? ? Hc' Hp1']; subst. cbn in Hc, Hc'.
    assert (k = k') as <-.
    { pose proof (Hext k) as Hk0. pose proof (Hext k') as Hk0'.
      cbn in Hk0, Hk0'. rewrite Z.eqb_refl in Hk0, Hk0'.
      destruct (Z.eqb_spec k k') as [|Hne]; [done|].
      destruct (Z.eqb_spec k' k) as [|_]; [congruence|].
      destruct (Z.lt_total k k') as [Hlt|[|Hlt]]; [|done|].
      - rewrite (assoc_below k g') in Hk0; [lia|].
        eapply Forall_impl; [exact Hk'|]. cbn. lia.
      - rewrite (assoc_below k' g) in Hk0'; [lia|].
        eapply Forall_impl; [exact Hk|]. cbn. lia. }
    assert (c = c') as <-.
    { specialize (Hext k). cbn in Hext. by rewrite Z.eqb_refl in Hext. }
    f_equal. apply IH; try done. intros d.
    destruct (Z.eq_dec d k) as [->|Hne].
    + by rewrite !assoc_below.
    + specialize (Hext d). cbn in Hext.
      by destruct (Z.eqb_spec d k).
Qed.

(** X13.  The statistics frame, and with it the curve, depends on the
    delays only as a multiset: reordering the rows of the table does not
    change the distribution plot, in any arithmetic. *)
Theorem cdf_stats_ignores_row_order `{Number F} (delays delays' : list Z) :
  Permutation delays delays' ->
  cdf_stats (F := F) delays = cdf_stats (F := F) delays'.
Proof.
  intros Hperm.
  assert (groupby_count delays = groupby_count delays') as Hsame.
  { apply sorted_counts_ext;
      try apply groupby_count_sorted; try apply groupby_count_positive.
    intros d. rewrite !groupby_count_assoc. unfold count_of. f_equal.
    by apply (Permutation_count_occ Z.eq_dec). }
  unfold cdf_stats. by rewrite Hsame.
Qed.

(** ** One run against another *)

(** X11.  In distribution mode [--subtitle] has no effect: a run with any
    other subtitle, or none, builds the same figure and the same output. *)
Theorem subtitle_ignored_in_distribution_mode `{Number F}
    (read_csv : string -> LoadError + DataFrame) (yticks : Axes -> list F)
    (args : Args) (t : option string) (st : State) :
  arg_cdf args = true ->
  run read_csv yticks args = inr st ->
  exists st',
    run read_csv yticks (with_subtitle t args) = inr st' /\
    st_fig st' = st_fig st /\ st_trace st' = st_trace st.
Proof.
  intros Hmode Hrun.
  destruct (run_inv read_csv yticks args st Hrun)
    as (data & Hload & [[pv Hp] [dv Hd]] & Hfig & Htr & _).
  pose proof (run_spec read_csv yticks (with_subtitle t args)) as Hspec.
  cbn [with_subtitle arg_file] in Hspec. rewrite Hload, Hp, Hd in Hspec.
  destruct Hspec as (st' & Hrun' & Hfig' & Htr' & _).
  assert (final_figure yticks (with_subtitle t args) data
          = final_figure yticks args data) as Hsame.
  { unfold final_figure, rendered, n_pids, arg_pids. cbn [with_subtitle arg_cdf
      arg_title arg_pid0 arg_pids_more]. by rewrite Hmode. }
  exists st'. split; [done|]. split.
  - by rewrite Hfig', Hfig.
  - rewrite Htr', Htr. unfold final_trace. by rewrite Hsame.
Qed.

(** X12.  Raster mode never consults the tick locator: whatever positions
    matplotlib would report, the figure and the output are the same. *)
Theorem raster_mode_ignores_ticks `{Number F}
    (read_csv : string -> LoadError + DataFrame)
    (yticks yticks' : Axes -> list F) (args : Args) (st : State) :
  arg_cdf args = false ->
  run read_csv yticks args = inr st ->
  exists st',
    run read_csv yticks' args = inr st' /\
    st_fig st' = st_fig st /\ st_trace st' = st_trace st.
Proof.
  intros Hmode Hrun.
  destruct (run_inv read_csv yticks args st Hrun)
    as (data & Hload & [[pv Hp] [dv Hd]] & Hfig & Htr & _).
  pose proof (run_spec read_csv yticks' args) as Hspec.
  rewrite Hload, Hp, Hd in Hspec.
  destruct Hspec as (st' & Hrun' & Hfig' & Htr' & _).
  assert (final_figure yticks' args data = final_figure yticks args data)
    as Hsame.
  { unfold final_figure, rendered. by rewrite Hmode. }
  exists st'. split; [done|]. split.
  - by rewrite Hfig', Hfig.
  - rewrite Htr', Htr. unfold final_trace. by rewrite Hsame.
Qed.

(** ** The further properties on the sample inputs *)

(** X1 at the distribution run, which has a title. *)
Lemma figure_title_witness :
  exists st : State,
    run (F := float) sample_loader sample_ticks cdf_args = inr st /\
    fig_suptitle (st_fig st) = arg_title cdf_args /\
    fig_hspace (st_fig st) = Some (1 # 2).
Proof.
  eexists. split; [vm_compute; reflexivity|].
  apply (figure_title_and_spacing sample_loader sample_ticks cdf_args).
  vm_compute; reflexivity.
Defined.

(** X2 at the distribution run. *)
Lemma terminal_output_witness :
  exists st : State,
    sample_loader (arg_file cdf_args) = inr sample_table /\
    run (F := float) sample_loader sample_ticks cdf_args = inr st /\
    exists rest,
      st_trace st
      = flat_map (fun p => [Print (pretty p);
                            PrintDescribe (partition sample_table p)])
                 (arg_pids cdf_args)
        ++ rest /\
      Forall (fun e => ~ is_print e) rest.
Proof.
  eexists. split; [reflexivity|]. split; [vm_compute; reflexivity|].
  apply (terminal_output sample_loader sample_ticks cdf_args sample_table);
    [reflexivity | vm_compute; reflexivity].
Defined.

(** X3 at the raster run, where pid 7 is requested twice. *)
Lemma pid_data_keys_witness :
  exists st : State,
    sample_loader (arg_file raster_args) = inr sample_table /\
    run (F := float) sample_loader sample_ticks raster_args = inr st /\
    dom (st_pid_data st) = (list_to_set (arg_pids raster_args) : gset Z).
Proof.
  eexists. split; [reflexivity|]. split; [vm_compute; reflexivity|].
  apply (pid_data_keys sample_loader sample_ticks raster_args sample_table);
    [reflexivity | vm_compute; reflexivity].
Defined.

(** X4 at the raster run: pid 7 is the first and the fourth argument. *)
Lemma repeated_pid_witness :
  exists st : State,
    run (F := float) sample_loader sample_ticks raster_args = inr st /\
    arg_pids raster_args !! 0%nat = Some 7 /\
    arg_pids raster_args !! 3%nat = Some 7 /\
    is_Some (fig_axes (st_fig st) !! 0%nat) /\
    fig_axes (st_fig st) !! 0%nat = fig_axes (st_fig st) !! 3%nat.
Proof.
  eexists. split; [vm_compute; reflexivity|].
  split; [reflexivity|]. split; [reflexivity|].
  apply (repeated_pid_repeats_subplot
           sample_loader sample_ticks raster_args _ 0%nat 3%nat 7);
    [vm_compute; reflexivity | reflexivity | reflexivity].
Defined.

(** X5 at the raster run. *)
Lemma every_cell_drawn_once_witness :
  exists st : State,
    run (F := float) sample_loader sample_ticks raster_args = inr st /\
    (fig_nrows (st_fig st) * fig_ncols (st_fig st))%nat
    = length (arg_pids raster_args) /\
    length (fig_axes (st_fig st)) = length (arg_pids raster_args) /\
    forall x, In x (fig_axes (st_fig st)) -> length (ax_artists x) = 1%nat.
Proof.
  eexists. split; [vm_compute; reflexivity|].
  apply (every_cell_drawn_once sample_loader sample_ticks raster_args).
  vm_compute; reflexivity.
Defined.

(** X6 at the distribution run, which sets an x limit. *)
Lemma tick_labels_witness :
  exists st : State,
    run (F := float) sample_loader sample_ticks cdf_args = inr st /\
    arg_cdf cdf_args = true /\
    forall i p, arg_pids cdf_args !! i = Some p ->
    exists x x1,
      fig_axes (st_fig st) !! i = Some x /\
      ax_yticklabels x = Some (map format_percent (sample_ticks x1)) /\
      ax_artists x1 = ax_artists x /\ ax_xlabel x1 = ax_xlabel x /\
      ax_xlim x1 = None /\ ax_ylim x1 = None /\ ax_yticklabels x1 = None.
Proof.
  eexists. split; [vm_compute; reflexivity|]. split; [reflexivity|].
  apply (tick_labels_precede_limits sample_loader sample_ticks cdf_args);
    [vm_compute; reflexivity | reflexivity].
Defined.

(** X7 at pid 42, which the sample table does not hold. *)
Lemma absent_pid_witness :
  has_columns sample_table /\
  (forall r, In r (rows sample_table) -> row_pid r <> 42) /\
  exists st' : State,
    load_pid (F := float) sample_table 42 initial = inr (tt, st') /\
    st_pid_data st' !! 42 = Some [] /\
    st_fig st' = st_fig initial.
Proof.
  assert (has_columns sample_table) as Hc.
  { split; eexists; vm_compute; reflexivity. }
  assert (forall r, In r (rows sample_table) -> row_pid r <> 42) as Hno.
  { intros r Hr. vm_compute in Hr.
    repeat (destruct Hr as [<-|Hr]; [discriminate|]). destruct Hr. }
  split; [exact Hc|]. split; [exact Hno|].
  exact (absent_pid_selects_empty_series sample_table 42 initial Hc Hno).
Defined.

(** X9 at pid 7 of the sample table: all three of its rows are at or
    below its largest delay. *)
Lemma float64_cdf_fraction_witness :
  let delays := map snd (partition sample_table 7) in
  let s := cdf_stats (F := float) delays in
  let k := inject_Z (Z.of_nat (length (sf_delay s))) in
  let frac := fraction (count_le 5 delays) (Z.of_nat (length delays)) in
  Z.of_nat (length (partition sample_table 7)) <= 2 ^ 51 /\
  sf_delay s !! 1%nat = Some 5 /\
  exists v q,
    sf_cdf s !! 1%nat = Some v /\ repr v = Finite false q /\
    ((1 - k * eps) * frac <= q <= (1 + 2 * (k * eps)) * frac)%Q.
Proof.
  intros delays s k frac. split; [by vm_compute|]. split; [reflexivity|].
  apply (float64_cdf_is_fraction_at_or_below sample_table 7 1%nat 5);
    [by vm_compute|reflexivity].
Defined.

(** X10 at three samples with two distinct delays. *)
Lemma float64_cdf_strict_witness :
  Z.of_nat (length [5; 5; 1]) <= 2 ^ 51 /\
  StronglySorted (fun a b => PrimFloat.ltb a b = true)
                 (sf_cdf (cdf_stats (F := float) [5; 5; 1])).
Proof.
  split; [by vm_compute|].
  apply (float64_cdf_strictly_increasing [5; 5; 1]). by vm_compute.
Defined.

(** X11 at the distribution run, given a subtitle it will not use. *)
Lemma subtitle_ignored_witness :
  exists st : State,
    arg_cdf cdf_args = true /\
    run (F := float) sample_loader sample_ticks cdf_args = inr st /\
    exists st' : State,
      run (F := float) sample_loader sample_ticks
          (with_subtitle (Some "unused") cdf_args) = inr st' /\
      st_fig st' = st_fig st /\ st_trace st' = st_trace st.
Proof.
  eexists. split; [reflexivity|]. split; [vm_compute; reflexivity|].
  apply (subtitle_ignored_in_distribution_mode
           sample_loader sample_ticks cdf_args (Some "unused"));
    [reflexivity | vm_compute; reflexivity].
Defined.

(** X12 at the raster run, with a locator that reports no tick at all. *)
Lemma raster_mode_ignores_ticks_witness :
  exists st : State,
    arg_cdf raster_args = false /\
    run (F := float) sample_loader sample_ticks raster_args = inr st /\
    exists st' : State,
      run (F := float) sample_loader (fun _ => []) raster_args = inr st' /\
      st_fig st' = st_fig st /\ st_trace st' = st_trace st.
Proof.
  eexists. split; [reflexivity|]. split; [vm_compute; reflexivity|].
  apply (raster_mode_ignores_ticks sample_loader sample_ticks (fun _ => [])
           raster_args);
    [reflexivity | vm_compute; reflexivity].
Defined.

(** X13 at two orders of the delays of pid 7. *)
Lemma cdf_stats_row_order_witness :
  Permutation [5; 5; 1] [1; 5; 5] /\
  cdf_stats (F := float) [5; 5; 1] = cdf_stats (F := float) [1; 5; 5].
Proof.
  assert (Permutation [5; 5; 1] [1; 5; 5]) as Hperm.
  { apply Permutation_sym, (Permutation_cons_app [5; 5] []), Permutation_refl. }
  split; [exact Hperm|].
  exact (cdf_stats_ignores_row_order [5; 5; 1] [1; 5; 5] Hperm).
Defined.
